(** * The paged viewport navigator ([scrollPager]) and its wheel throttle

    A shallow embedding of the JavaScript functions [throttle] and
    [scrollPager] together with the statements of their specification.

    Conventions of the embedding:
    - page indices are integers ([Z]); [Date.now()] values are integer
      milliseconds ([Z]); frame timestamps, durations, wheel deltas and
      touch coordinates are exact rationals ([Q]);
    - the results of the floating point operations that can leave the
      finite numbers ([x / 0], [0 / 0], [0 * Infinity]) are kept in
      [JsNum.t];
    - the closure variables of [scrollPager] are the fields of [state];
      what the browser holds for the closure (the registered listeners, the
      pending frame request, the pending timeout, the pending
      continuation of the [beforeChange] promise) are fields of [state] too;
    - calls of the user's hooks, [console.log] and [e.preventDefault()] are
      recorded in an observation log; what a hook does in turn (calling
      the API again) is a later event: [beforeChange] runs with the guard
      already held and the index already set, [afterChange] runs last;
    - the value returned by [beforeChange] is a thenable; the surroundings
      settle it with the events [Fulfilled] and [Rejected]. *)

From Stdlib Require Import ZArith QArith Qabs List Bool Lia Sorted.
From Stdlib Require String DecimalString.
Import ListNotations.
Open Scope Z_scope.

(** ** JavaScript numbers, as far as the animation loop needs them *)

Module JsNum.

Inductive t : Type :=
| Fin (q : Q)
| NaN
| PosInf
| NegInf.

Definition Qltb (a b : Q) : bool := negb (Qle_bool b a).

Definition ofZ (z : Z) : t := Fin (inject_Z z).

(** [a / b] on finite operands. *)
Definition div (a b : Q) : t :=
  if Qeq_bool b 0 then
    if Qeq_bool a 0 then NaN
    else if Qltb 0 a then PosInf else NegInf
  else Fin (Qred (a / b)).

(** [Math.min(x, y)]. *)
Definition min (x y : t) : t :=
  match x, y with
  | NaN, _ | _, NaN => NaN
  | NegInf, _ | _, NegInf => NegInf
  | PosInf, z => z
  | z, PosInf => z
  | Fin a, Fin b => if Qle_bool a b then Fin a else Fin b
  end.

(** [x < y]. *)
Definition ltb (x y : t) : bool :=
  match x, y with
  | NaN, _ | _, NaN => false
  | _, NegInf => false
  | NegInf, _ => true
  | PosInf, _ => false
  | Fin _, PosInf => true
  | Fin a, Fin b => Qltb a b
  end.

(** [x === y]. *)
Definition eqb (x y : t) : bool :=
  match x, y with
  | Fin a, Fin b => Qeq_bool a b
  | PosInf, PosInf | NegInf, NegInf => true
  | _, _ => false
  end.

(** [a * y] for a finite [a]. *)
Definition scale (a : Q) (y : t) : t :=
  match y with
  | Fin b => Fin (Qred (a * b))
  | NaN => NaN
  | PosInf =>
      if Qeq_bool a 0 then NaN else if Qltb 0 a then PosInf else NegInf
  | NegInf =>
      if Qeq_bool a 0 then NaN else if Qltb 0 a then NegInf else PosInf
  end.

(** [a + y] for a finite [a]. *)
Definition shift (a : Q) (y : t) : t :=
  match y with
  | Fin b => Fin (Qred (a + b))
  | other => other
  end.

Definition one : t := Fin 1.

End JsNum.

(** ** [throttle(fn, time, type)]

    The closure variables [lastTime] and [timer] and, for the timeouts the
    closure sets, the browser's timer table ([pending]: handle, due time
    and the arguments captured by the callback, in the order of the calls
    of [setTimeout]) and its handle counter.  An invocation
    [fn.apply(context, args)] is returned to the caller as [Some args];
    [fn] never reads the closure variables of [throttle]. *)

Module Throttle.
Section Throttle.

Variable A : Type.

Definition timeout : Type := (nat * Z * A)%type.

Record t : Type := mk {
  lastTime : Z;
  timer : option nat;
  pending : list timeout;
  fresh : nat
}.

(** [var lastTime = 0; var timer = null;] *)
Definition init : t :=
  {| lastTime := 0; timer := None; pending := []; fresh := 1%nat |}.

(** [var delay = time || 500;] *)
Definition delayOf (time : Z) : Z := if time =? 0 then 500 else time.

(** [var immediate = typeof type === 'undefined' ? true : type;] *)
Definition immediateOf (type : option bool) : bool :=
  match type with None => true | Some b => b end.

Definition handleOf (x : timeout) : nat := fst (fst x).
Definition dueOf (x : timeout) : Z := snd (fst x).
Definition argsOf (x : timeout) : A := snd x.

(** [clearTimeout(id)] on the timer table. *)
Definition clearTimeout (id : nat) (p : list timeout) : list timeout :=
  filter (fun x => negb (Nat.eqb (handleOf x) id)) p.

(** The function returned by [throttle], called at [Date.now() = now]. *)
Definition call (time : Z) (type : option bool) (now : Z) (args : A) (st : t)
  : t * option A :=
  let delay := delayOf time in
  let immediate := immediateOf type in
  if immediate && (lastTime st =? 0) then
    ({| lastTime := now; timer := timer st;
        pending := pending st; fresh := fresh st |}, Some args)
  else if now - lastTime st <? delay then
    let cleared :=
      match timer st with
      | Some id => clearTimeout id (pending st)
      | None => pending st
      end in
    ({| lastTime := lastTime st;
        timer := Some (fresh st);
        pending :=
          cleared ++ [(fresh st, now + (delay - (now - lastTime st)), args)];
        fresh := S (fresh st) |}, None)
  else
    ({| lastTime := now; timer := timer st;
        pending := pending st; fresh := fresh st |}, Some args).

(** The callback of the timeout [id], run by the browser at
    [Date.now() = now]: [lastTime = Date.now(); fn.apply(context, args);] *)
Definition fire (id : nat) (now : Z) (st : t) : t * option A :=
  match find (fun x => Nat.eqb (handleOf x) id) (pending st) with
  | Some x =>
      ({| lastTime := now; timer := timer st;
          pending := clearTimeout id (pending st); fresh := fresh st |},
       Some (argsOf x))
  | None => (st, None)
  end.

(** *** A scheduler that fires every timeout exactly when it is due

    [run] feeds the throttled function a list of calls [(now, args)] and
    returns the invocations of [fn] with their times.  Before a call at
    [now] the timeouts due at or before [now] fire, each at its due time;
    after the last call the remaining ones fire. *)

Definition stamp (now : Z) (inv : option A) : list (Z * A) :=
  match inv with Some a => [(now, a)] | None => [] end.

Fixpoint fireDue (limit : option Z) (table : list timeout) (st : t)
  : t * list (Z * A) :=
  match table with
  | [] => (st, [])
  | x :: rest =>
      let isDue :=
        match limit with Some now => dueOf x <=? now | None => true end in
      if isDue then
        let '(st1, inv) := fire (handleOf x) (dueOf x) st in
        let '(st2, log) := fireDue limit rest st1 in
        (st2, stamp (dueOf x) inv ++ log)
      else fireDue limit rest st
  end.

Fixpoint run (time : Z) (type : option bool) (calls : list (Z * A)) (st : t)
  : list (Z * A) :=
  match calls with
  | [] => snd (fireDue None (pending st) st)
  | (now, args) :: rest =>
      let '(st1, log1) := fireDue (Some now) (pending st) st in
      let '(st2, inv) := call time type now args st1 in
      log1 ++ stamp now inv ++ run time type rest st2
  end.

End Throttle.

Arguments lastTime {A} _.
Arguments timer {A} _.
Arguments pending {A} _.
Arguments fresh {A} _.
Arguments init {A}.
Arguments call {A} _ _ _ _ _.
Arguments fire {A} _ _ _.
Arguments clearTimeout {A} _ _.
Arguments run {A} _ _ _ _.
Arguments fireDue {A} _ _ _.
Arguments stamp {A} _ _.
Arguments handleOf {A} _.
Arguments dueOf {A} _.
Arguments argsOf {A} _.

End Throttle.

(** ** [scrollPager(container, options)] *)

Module Pager.

(** *** Configuration, DOM nodes, styles, events *)

Inductive axis : Type := Vertical | Horizontal.

(** The merged [config] object.  [beforeChange] and [afterChange] say
    whether [typeof config.beforeChange === 'function'] (respectively
    [afterChange]); [easing] only occurs in the text of the CSS
    transition and is left out. *)
Record config : Type := {
  duration : Q;
  direction : axis;
  infinite : bool;
  throttleTime : Z;
  sensitivity : Q;
  beforeChange : bool;
  afterChange : bool
}.

(** The defaults merged under the caller's options. *)
Definition defaults : config :=
  {| duration := 800; direction := Vertical; infinite := true;
     throttleTime := 800; sensitivity := 1;
     beforeChange := false; afterChange := false |}.

(** The children of the container, by identity: the pages found at
    construction and the two clones made by [cloneNode(true)]. *)
Inductive node : Type :=
| Orig (i : nat)
| FirstClone
| LastClone.

Definition node_eqb (a b : node) : bool :=
  match a, b with
  | Orig i, Orig j => Nat.eqb i j
  | FirstClone, FirstClone | LastClone, LastClone => true
  | _, _ => false
  end.

(** [page.style.transition] is ['none'] or the transform transition. *)
Inductive transition : Type := TransitionNone | TransitionTransform.

(** [page.style.transform], a percentage along the configured axis. *)
Inductive transform : Type :=
| TranslateY (percent : JsNum.t)
| TranslateX (percent : JsNum.t).

Record style : Type := {
  styleTransition : transition;
  styleTransform : transform
}.

Record wheelEvent : Type := { deltaX : Q; deltaY : Q }.

Record touch : Type := { clientX : Q; clientY : Q }.

(** The object stored in [startTouch]. *)
Record touchStart : Type := { touchX : Q; touchY : Q; touchTime : Z }.

Inductive eventType : Type := WheelT | TouchStartT | TouchMoveT | TouchEndT.

Definition eventType_eqb (a b : eventType) : bool :=
  match a, b with
  | WheelT, WheelT | TouchStartT, TouchStartT
  | TouchMoveT, TouchMoveT | TouchEndT, TouchEndT => true
  | _, _ => false
  end.

(** The function objects handed to [addEventListener] and
    [removeEventListener], by identity.  [WheelListener] is the arrow
    function registered for ['wheel']; [ThrottledWheel] is the result of
    [throttle(handleWheel, ...)]. *)
Inductive handler : Type :=
| WheelListener
| ThrottledWheel
| HandleTouchStart
| HandleTouchMove
| HandleTouchEnd.

Definition handler_eqb (a b : handler) : bool :=
  match a, b with
  | WheelListener, WheelListener | ThrottledWheel, ThrottledWheel
  | HandleTouchStart, HandleTouchStart | HandleTouchMove, HandleTouchMove
  | HandleTouchEnd, HandleTouchEnd => true
  | _, _ => false
  end.

(** What the surroundings observe. *)
Inductive obs : Type :=
| BeforeChange (prevIndex nextIndex : Z)
| AfterChange (index : Z)
| PreventDefault
| ConsoleLog (index : Z).

Inductive exn : Type := NotFoundError | TypeError.

(** The promise whose [then] holds the continuation of [scrollTo]:
    [Promise.resolve()], or the value returned by the [beforeChange]
    hook (a thenable, which the surroundings settle). *)
Inductive promise : Type := Resolved | HookResult.

(** *** The state of one pager

    [thenWait] is the continuation registered by
    [beforeChangePromise.then] (with the [isInstant] it captured);
    [frameRequest] is the callback registered by
    [requestAnimationFrame] (handle, and the [needsReset] and
    [resetIndex] captured by the continuation of [animateScroll]).
    Both are single slots: [scrollTo] registers a continuation only when
    [isAnimating] is false, and then none is pending
    ([reachable_guard]). *)
Record state : Type := {
  children : list node;
  listeners : list (eventType * handler);
  styles : list style;
  currentIndex : Z;
  isAnimating : bool;
  animationFrameId : option nat;
  startTimestamp : option Q;
  startPosition : Z;
  targetPosition : Z;
  startTouch : option touchStart;
  throttled : Throttle.t wheelEvent;
  thenWait : option (promise * bool);
  frameRequest : option (nat * (bool * Z));
  nextFrame : nat
}.

Definition set_children (v : list node) (s : state) : state :=
  {| children := v; listeners := listeners s; styles := styles s;
     currentIndex := currentIndex s; isAnimating := isAnimating s;
     animationFrameId := animationFrameId s;
     startTimestamp := startTimestamp s; startPosition := startPosition s;
     targetPosition := targetPosition s; startTouch := startTouch s;
     throttled := throttled s; thenWait := thenWait s;
     frameRequest := frameRequest s; nextFrame := nextFrame s |}.

Definition set_listeners (v : list (eventType * handler)) (s : state) : state :=
  {| children := children s; listeners := v; styles := styles s;
     currentIndex := currentIndex s; isAnimating := isAnimating s;
     animationFrameId := animationFrameId s;
     startTimestamp := startTimestamp s; startPosition := startPosition s;
     targetPosition := targetPosition s; startTouch := startTouch s;
     throttled := throttled s; thenWait := thenWait s;
     frameRequest := frameRequest s; nextFrame := nextFrame s |}.

Definition set_styles (v : list style) (s : state) : state :=
  {| children := children s; listeners := listeners s; styles := v;
     currentIndex := currentIndex s; isAnimating := isAnimating s;
     animationFrameId := animationFrameId s;
     startTimestamp := startTimestamp s; startPosition := startPosition s;
     targetPosition := targetPosition s; startTouch := startTouch s;
     throttled := throttled s; thenWait := thenWait s;
     frameRequest := frameRequest s; nextFrame := nextFrame s |}.

Definition set_currentIndex (v : Z) (s : state) : state :=
  {| children := children s; listeners := listeners s; styles := styles s;
     currentIndex := v; isAnimating := isAnimating s;
     animationFrameId := animationFrameId s;
     startTimestamp := startTimestamp s; startPosition := startPosition s;
     targetPosition := targetPosition s; startTouch := startTouch s;
     throttled := throttled s; thenWait := thenWait s;
     frameRequest := frameRequest s; nextFrame := nextFrame s |}.

Definition set_isAnimating (v : bool) (s : state) : state :=
  {| children := children s; listeners := listeners s; styles := styles s;
     currentIndex := currentIndex s; isAnimating := v;
     animationFrameId := animationFrameId s;
     startTimestamp := startTimestamp s; startPosition := startPosition s;
     targetPosition := targetPosition s; startTouch := startTouch s;
     throttled := throttled s; thenWait := thenWait s;
     frameRequest := frameRequest s; nextFrame := nextFrame s |}.

Definition set_animationFrameId (v : option nat) (s : state) : state :=
  {| children := children s; listeners := listeners s; styles := styles s;
     currentIndex := currentIndex s; isAnimating := isAnimating s;
     animationFrameId := v; startTimestamp := startTimestamp s;
     startPosition := startPosition s; targetPosition := targetPosition s;
     startTouch := startTouch s; throttled := throttled s;
     thenWait := thenWait s; frameRequest := frameRequest s;
     nextFrame := nextFrame s |}.

Definition set_startTimestamp (v : option Q) (s : state) : state :=
  {| children := children s; listeners := listeners s; styles := styles s;
     currentIndex := currentIndex s; isAnimating := isAnimating s;
     animationFrameId := animationFrameId s; startTimestamp := v;
     startPosition := startPosition s; targetPosition := targetPosition s;
     startTouch := startTouch s; throttled := throttled s;
     thenWait := thenWait s; frameRequest := frameRequest s;
     nextFrame := nextFrame s |}.

Definition set_startPosition (v : Z) (s : state) : state :=
  {| children := children s; listeners := listeners s; styles := styles s;
     currentIndex := currentIndex s; isAnimating := isAnimating s;
     animationFrameId := animationFrameId s;
     startTimestamp := startTimestamp s; startPosition := v;
     targetPosition := targetPosition s; startTouch := startTouch s;
     throttled := throttled s; thenWait := thenWait s;
     frameRequest := frameRequest s; nextFrame := nextFrame s |}.

Definition set_targetPosition (v : Z) (s : state) : state :=
  {| children := children s; listeners := listeners s; styles := styles s;
     currentIndex := currentIndex s; isAnimating := isAnimating s;
     animationFrameId := animationFrameId s;
     startTimestamp := startTimestamp s; startPosition := startPosition s;
     targetPosition := v; startTouch := startTouch s;
     throttled := throttled s; thenWait := thenWait s;
     frameRequest := frameRequest s; nextFrame := nextFrame s |}.

Definition set_startTouch (v : option touchStart) (s : state) : state :=
  {| children := children s; listeners := listeners s; styles := styles s;
     currentIndex := currentIndex s; isAnimating := isAnimating s;
     animationFrameId := animationFrameId s;
     startTimestamp := startTimestamp s; startPosition := startPosition s;
     targetPosition := targetPosition s; startTouch := v;
     throttled := throttled s; thenWait := thenWait s;
     frameRequest := frameRequest s; nextFrame := nextFrame s |}.

Definition set_throttled (v : Throttle.t wheelEvent) (s : state) : state :=
  {| children := children s; listeners := listeners s; styles := styles s;
     currentIndex := currentIndex s; isAnimating := isAnimating s;
     animationFrameId := animationFrameId s;
     startTimestamp := startTimestamp s; startPosition := startPosition s;
     targetPosition := targetPosition s; startTouch := startTouch s;
     throttled := v; thenWait := thenWait s;
     frameRequest := frameRequest s; nextFrame := nextFrame s |}.

Definition set_thenWait (v : option (promise * bool)) (s : state) : state :=
  {| children := children s; listeners := listeners s; styles := styles s;
     currentIndex := currentIndex s; isAnimating := isAnimating s;
     animationFrameId := animationFrameId s;
     startTimestamp := startTimestamp s; startPosition := startPosition s;
     targetPosition := targetPosition s; startTouch := startTouch s;
     throttled := throttled s; thenWait := v;
     frameRequest := frameRequest s; nextFrame := nextFrame s |}.

Definition set_frameRequest (v : option (nat * (bool * Z))) (s : state) : state :=
  {| children := children s; listeners := listeners s; styles := styles s;
     currentIndex := currentIndex s; isAnimating := isAnimating s;
     animationFrameId := animationFrameId s;
     startTimestamp := startTimestamp s; startPosition := startPosition s;
     targetPosition := targetPosition s; startTouch := startTouch s;
     throttled := throttled s; thenWait := thenWait s; frameRequest := v;
     nextFrame := nextFrame s |}.

Definition set_nextFrame (v : nat) (s : state) : state :=
  {| children := children s; listeners := listeners s; styles := styles s;
     currentIndex := currentIndex s; isAnimating := isAnimating s;
     animationFrameId := animationFrameId s;
     startTimestamp := startTimestamp s; startPosition := startPosition s;
     targetPosition := targetPosition s; startTouch := startTouch s;
     throttled := throttled s; thenWait := thenWait s;
     frameRequest := frameRequest s; nextFrame := v |}.

(** *** A state, log and exception monad for the closure *)

Inductive outcome (A : Type) : Type :=
| Done (a : A)
| Threw (e : exn).
Arguments Done {A} a.
Arguments Threw {A} e.

Definition M (A : Type) : Type := state -> outcome A * state * list obs.

Definition ret {A : Type} (a : A) : M A := fun s => (Done a, s, []).

Definition bind {A B : Type} (m : M A) (f : A -> M B) : M B :=
  fun s =>
    match m s with
    | (Done a, s1, log1) =>
        match f a s1 with
        | (r, s2, log2) => (r, s2, log1 ++ log2)
        end
    | (Threw e, s1, log1) => (Threw e, s1, log1)
    end.

Definition gets {A : Type} (f : state -> A) : M A :=
  fun s => (Done (f s), s, []).

Definition modify (f : state -> state) : M unit :=
  fun s => (Done tt, f s, []).

Definition emit (o : obs) : M unit := fun s => (Done tt, s, [o]).

Definition throw {A : Type} (e : exn) : M A := fun s => (Threw e, s, []).

Declare Scope pager_scope.
Delimit Scope pager_scope with pager.
Notation "x <- m ;; k" := (bind m (fun x => k))
  (at level 61, m at next level, right associativity) : pager_scope.
Notation "m ;; k" := (bind m (fun _ => k))
  (at level 61, right associativity) : pager_scope.
Open Scope pager_scope.

(** [l.forEach(f)] *)
Fixpoint forEach {A : Type} (f : A -> M unit) (l : list A) : M unit :=
  match l with
  | [] => ret tt
  | x :: rest => f x ;; forEach f rest
  end.

Definition stateOf {A : Type} (r : outcome A * state * list obs) : state :=
  snd (fst r).

Definition logOf {A : Type} (r : outcome A * state * list obs) : list obs :=
  snd r.

Definition outcomeOf {A : Type} (r : outcome A * state * list obs)
  : outcome A := fst (fst r).

(** [l.map((x, i) => f(i, x))], with the index counted from [i]. *)
Fixpoint mapIndexed {A B : Type} (f : Z -> A -> B) (i : Z) (l : list A)
  : list B :=
  match l with
  | [] => []
  | x :: rest => f i x :: mapIndexed f (i + 1) rest
  end.

Definition len {A : Type} (l : list A) : Z := Z.of_nat (length l).

(** The first occurrence of [n] leaves the list. *)
Fixpoint removeNode (n : node) (l : list node) : list node :=
  match l with
  | [] => []
  | x :: rest => if node_eqb x n then rest else x :: removeNode n rest
  end.

Definition hasNode (n : node) (l : list node) : bool :=
  existsb (fun x => node_eqb x n) l.

(** [removeEventListener(type, h)] on the listener list of the container. *)
Fixpoint removeListener (t : eventType) (h : handler)
  (l : list (eventType * handler)) : list (eventType * handler) :=
  match l with
  | [] => []
  | (t', h') :: rest =>
      if eventType_eqb t' t && handler_eqb h' h then rest
      else (t', h') :: removeListener t h rest
  end.

(** [!startTimestamp]: [null] and [0] are falsy. *)
Definition falsy (o : option Q) : bool :=
  match o with
  | None => true
  | Some q => Qeq_bool q 0
  end.

(** What the browser delivers to a listener of the container, with the
    values the handler reads from the surroundings: [Date.now()] and
    [window.innerWidth], [window.innerHeight]. *)
Inductive domEvent : Type :=
| WheelEvent (now : Z) (e : wheelEvent)
| TouchStartEvent (now : Z) (p : touch)
| TouchMoveEvent (p : touch)
| TouchEndEvent (now : Z) (p : touch) (innerWidth innerHeight : Q).

Definition typeOf (e : domEvent) : eventType :=
  match e with
  | WheelEvent _ _ => WheelT
  | TouchStartEvent _ _ => TouchStartT
  | TouchMoveEvent _ => TouchMoveT
  | TouchEndEvent _ _ _ _ => TouchEndT
  end.

(** Everything that can happen to a pager: a call of its API, an event on
    its container, a timeout of the throttle, the settling of the promise
    [scrollTo] waits for, an animation frame. *)
Inductive event : Type :=
| Next
| Prev
| ScrollTo (index : Z)
| Destroy
| Dom (e : domEvent)
| Timeout (id : nat) (now : Z)
| Fulfilled
| Rejected
| Frame (timestamp : Q).

(** What construction fixes: the merged configuration and the arrays
    [originalPages] and [pages], never reassigned afterwards. *)
Record instance : Type := {
  cfg : config;
  originalPages : list node;
  pages : list node
}.

Section Closure.

Variable inst : instance.

Let config := cfg inst.

Definition along (v : JsNum.t) : transform :=
  match direction config with
  | Vertical => TranslateY v
  | Horizontal => TranslateX v
  end.

(** [getOriginalIndex(index)] *)
Definition getOriginalIndex (index : Z) : Z :=
  if negb (infinite config) then index
  else if index <=? 0 then len (originalPages inst) - 1
  else if index >=? len (pages inst) - 1 then 0
  else index - 1.

(** [updatePagesPosition(isInstant, progress = 1)] *)
Definition updatePagesPosition (isInstant : bool) (progress : JsNum.t)
  : M unit :=
  let transition :=
    if isInstant then TransitionNone else TransitionTransform in
  s <- gets (fun s => s) ;;
  modify (set_styles
    (mapIndexed
       (fun i _ =>
          let translateValue :=
            if isInstant || JsNum.eqb progress JsNum.one then
              JsNum.ofZ ((i - currentIndex s) * 100)
            else
              let startValue := (i - startPosition s) * 100 in
              let endValue := (i - targetPosition s) * 100 in
              JsNum.shift (inject_Z startValue)
                (JsNum.scale (inject_Z (endValue - startValue)) progress)
          in
          {| styleTransition := transition;
             styleTransform := along translateValue |})
       0 (pages inst))).

(** [triggerAfterChange()] *)
Definition triggerAfterChange : M unit :=
  if afterChange config then
    cur <- gets currentIndex ;;
    emit (AfterChange (getOriginalIndex cur))
  else ret tt.

(** [cancelAnimationFrame(id)] on the pending frame request. *)
Definition cancelAnimationFrame (id : option nat) : M unit :=
  req <- gets frameRequest ;;
  match id, req with
  | Some i, Some (j, _) =>
      if Nat.eqb i j then modify (set_frameRequest None) else ret tt
  | _, _ => ret tt
  end.

(** [animationFrameId = requestAnimationFrame(animate)], where the
    closure [animate] and the continuation of the promise of
    [animateScroll] hold [k = (needsReset, resetIndex)]. *)
Definition requestAnimationFrame (k : bool * Z) : M unit :=
  id <- gets nextFrame ;;
  modify (set_nextFrame (S id)) ;;
  modify (set_frameRequest (Some (id, k))) ;;
  modify (set_animationFrameId (Some id)).

(** The two continuations [animateScroll(isInstant).then(...)] of
    [scrollTo], told apart by [needsReset]. *)
Definition afterAnimation (k : bool * Z) : M unit :=
  let '(needsReset, resetIndex) := k in
  if needsReset then
    modify (set_isAnimating false) ;;
    modify (set_currentIndex resetIndex) ;;
    updatePagesPosition true JsNum.one ;;
    triggerAfterChange
  else
    modify (set_isAnimating false) ;;
    triggerAfterChange.

(** The frame callback [animate(timestamp)] of [animateScroll]; when it
    resolves the promise the continuation runs before anything else
    can happen. *)
Definition animate (k : bool * Z) (timestamp : Q) : M unit :=
  st <- gets startTimestamp ;;
  let start :=
    match st with
    | Some q => if falsy st then timestamp else q
    | None => timestamp
    end in
  modify (set_startTimestamp (Some start)) ;;
  let progress :=
    JsNum.min (JsNum.div (timestamp - start) (duration config))
      JsNum.one in
  updatePagesPosition false progress ;;
  if JsNum.ltb progress JsNum.one then requestAnimationFrame k
  else afterAnimation k.

(** [animateScroll(isInstant)] followed by its [then]. *)
Definition animateScroll (isInstant : bool) (k : bool * Z) : M unit :=
  if isInstant then
    updatePagesPosition true JsNum.one ;;
    afterAnimation k
  else
    modify (set_startTimestamp None) ;;
    cur <- gets currentIndex ;;
    modify (set_startPosition cur) ;;
    modify (set_targetPosition cur) ;;
    requestAnimationFrame k.

(** The continuation [beforeChangePromise.then(() => ...)]. *)
Definition afterBeforeChange (isInstant : bool) : M unit :=
  cur <- gets currentIndex ;;
  let length := len (pages inst) in
  let k :=
    if infinite config && (length >? 1) then
      if cur >=? length - 1 then (true, 1)
      else if cur <=? 0 then (true, length - 2)
      else (false, cur)
    else (false, cur) in
  animateScroll isInstant k.

(** [scrollTo(index, isInstant = false)], up to the registration of
    the continuation. *)
Definition scrollTo (index : Z) (isInstant : bool) : M unit :=
  animating <- gets isAnimating ;;
  if animating then ret tt
  else
    prevIndex <- gets currentIndex ;;
    modify (set_currentIndex
              (Z.max 0 (Z.min index (len (pages inst) - 1)))) ;;
    modify (set_isAnimating true) ;;
    cur <- gets currentIndex ;;
    if beforeChange config then
      emit (BeforeChange (getOriginalIndex prevIndex)
              (getOriginalIndex cur)) ;;
      modify (set_thenWait (Some (HookResult, isInstant)))
    else
      modify (set_thenWait (Some (Resolved, isInstant))).

(** [delta > 0 ? 1 : -1] *)
Definition sign (delta : Q) : Z := if JsNum.Qltb 0 delta then 1 else -1.

(** The boundary test of both wheel paths. *)
Definition atBoundary (dir cur : Z) : bool :=
  ((dir <? 0) && (cur =? 0))
  || ((dir >? 0) && (cur =? len (originalPages inst) - 1)).

(** [handleWheel(e)] *)
Definition handleWheel (e : wheelEvent) : M unit :=
  cur <- gets currentIndex ;;
  emit (ConsoleLog cur) ;;
  animating <- gets isAnimating ;;
  if animating then emit PreventDefault
  else
    let delta :=
      match direction config with
      | Vertical => (deltaY e * sensitivity config)%Q
      | Horizontal => (deltaX e * sensitivity config)%Q
      end in
    let dir := sign delta in
    if negb (infinite config) && atBoundary dir cur then
      emit PreventDefault
    else
      scrollTo (cur + dir) false ;;
      emit PreventDefault.

(** [throttledWheel = throttle(handleWheel, config.throttleTime, true)] *)
Definition throttledWheel (now : Z) (e : wheelEvent) : M unit :=
  th <- gets throttled ;;
  let '(th', inv) :=
    Throttle.call (throttleTime config) (Some true) now e th in
  modify (set_throttled th') ;;
  match inv with
  | Some args => handleWheel args
  | None => ret tt
  end.

(** The callback of a timeout set by [throttledWheel]. *)
Definition timeoutCallback (id : nat) (now : Z) : M unit :=
  th <- gets throttled ;;
  let '(th', inv) := Throttle.fire id now th in
  modify (set_throttled th') ;;
  match inv with
  | Some args => handleWheel args
  | None => ret tt
  end.

(** The arrow function registered for ['wheel']. *)
Definition wheelListener (now : Z) (e : wheelEvent) : M unit :=
  cur <- gets currentIndex ;;
  let delta :=
    match direction config with
    | Vertical => deltaY e
    | Horizontal => deltaX e
    end in
  let dir := sign delta in
  if negb (infinite config) && atBoundary dir cur then
    emit PreventDefault
  else throttledWheel now e.

(** [handleTouchStart(e)], with [p = e.touches[0]]. *)
Definition handleTouchStart (now : Z) (p : touch) : M unit :=
  animating <- gets isAnimating ;;
  if animating then ret tt
  else
    modify (set_startTouch
              (Some {| touchX := clientX p; touchY := clientY p;
                       touchTime := now |})).

(** [handleTouchMove(e)], with [p = e.touches[0]]. *)
Definition handleTouchMove (p : touch) : M unit :=
  st <- gets startTouch ;;
  animating <- gets isAnimating ;;
  match st with
  | None => ret tt
  | Some t0 =>
      if animating then ret tt
      else
        let dX := (clientX p - touchX t0)%Q in
        let dY := (clientY p - touchY t0)%Q in
        match direction config with
        | Vertical =>
            if JsNum.Qltb (Qabs dX) (Qabs dY) then emit PreventDefault
            else ret tt
        | Horizontal =>
            if JsNum.Qltb (Qabs dY) (Qabs dX) then emit PreventDefault
            else ret tt
        end
  end.

(** [handleTouchEnd(e)], with [p = e.changedTouches[0]].  Coordinates and
    extents are exact rationals: the comparisons are those of the code
    for whole pixels, where its differences are exact and a third of an
    extent is rounded to a number between the same two integers. *)
Definition handleTouchEnd (now : Z) (p : touch)
  (innerWidth innerHeight : Q) : M unit :=
  st <- gets startTouch ;;
  animating <- gets isAnimating ;;
  match st with
  | None => ret tt
  | Some t0 =>
      if animating then ret tt
      else
        let deltaTime := now - touchTime t0 in
        let dX := (clientX p - touchX t0)%Q in
        let dY := (clientY p - touchY t0)%Q in
        let classify (distance extent : Q) : Z :=
          let isQuickSwipe :=
            (deltaTime <? 300) && JsNum.Qltb 50 (Qabs distance) in
          if isQuickSwipe || JsNum.Qltb (extent / 3) (Qabs distance)
          then sign distance else 0 in
        let dir :=
          match direction config with
          | Vertical => classify dY innerHeight
          | Horizontal => classify dX innerWidth
          end in
        (if negb (dir =? 0) then
           cur <- gets currentIndex ;;
           scrollTo (cur + dir) false
         else ret tt) ;;
        modify (set_startTouch None)
  end.

(** *** The returned API *)

(** [next()] *)
Definition next : M unit :=
  cur <- gets currentIndex ;;
  let nextIndex :=
    if infinite config then cur + 1
    else Z.min (cur + 1) (len (originalPages inst) - 1) in
  scrollTo nextIndex false.

(** [prev()] *)
Definition prev : M unit :=
  cur <- gets currentIndex ;;
  let prevIndex :=
    if infinite config then cur - 1 else Z.max (cur - 1) 0 in
  scrollTo prevIndex false.

(** [scrollTo(index)] of the API. *)
Definition apiScrollTo (index : Z) : M unit :=
  scrollTo (if infinite config then index + 1 else index) false.

(** [getCurrentIndex()] *)
Definition getCurrentIndex (s : state) : Z :=
  getOriginalIndex (currentIndex s).

(** [getTotalPages()] *)
Definition getTotalPages : Z := len (originalPages inst).

(** [containerEl.removeChild(n)]; [n] is [None] for [undefined]. *)
Definition removeChild (n : option node) : M unit :=
  match n with
  | None => throw TypeError
  | Some n =>
      kids <- gets children ;;
      if hasNode n kids then modify (set_children (removeNode n kids))
      else throw NotFoundError
  end.

Definition removeEventListener (t : eventType) (h : handler) : M unit :=
  ls <- gets listeners ;;
  modify (set_listeners (removeListener t h ls)).

(** [destroy()] *)
Definition destroy : M unit :=
  id <- gets animationFrameId ;;
  cancelAnimationFrame id ;;
  removeEventListener WheelT ThrottledWheel ;;
  removeEventListener TouchStartT HandleTouchStart ;;
  removeEventListener TouchMoveT HandleTouchMove ;;
  removeEventListener TouchEndT HandleTouchEnd ;;
  if infinite config
     && (len (pages inst) >? len (originalPages inst)) then
    removeChild (nth_error (pages inst) (length (pages inst) - 1)) ;;
    removeChild (nth_error (pages inst) 0)
  else ret tt.

(** *** Dispatch *)

(** A registered function object called with an event of its type. *)
Definition runHandler (h : handler) (e : domEvent) : M unit :=
  match h, e with
  | WheelListener, WheelEvent now w => wheelListener now w
  | ThrottledWheel, WheelEvent now w => throttledWheel now w
  | HandleTouchStart, TouchStartEvent now p => handleTouchStart now p
  | HandleTouchMove, TouchMoveEvent p => handleTouchMove p
  | HandleTouchEnd, TouchEndEvent now p w h => handleTouchEnd now p w h
  | _, _ => ret tt
  end.

(** The listeners registered for the type of the event, in order. *)
Definition dispatch (e : domEvent) : M unit :=
  ls <- gets listeners ;;
  forEach (fun l => runHandler (snd l) e)
    (filter (fun l => eventType_eqb (fst l) (typeOf e)) ls).

Definition step (ev : event) : M unit :=
  match ev with
  | Next => next
  | Prev => prev
  | ScrollTo index => apiScrollTo index
  | Destroy => destroy
  | Dom e => dispatch e
  | Timeout id now => timeoutCallback id now
  | Fulfilled =>
      w <- gets thenWait ;;
      match w with
      | Some (_, isInstant) =>
          modify (set_thenWait None) ;;
          afterBeforeChange isInstant
      | None => ret tt
      end
  | Rejected =>
      (* [then] was given no rejection handler: nothing runs *)
      w <- gets thenWait ;;
      match w with
      | Some (HookResult, _) => modify (set_thenWait None)
      | _ => ret tt
      end
  | Frame timestamp =>
      req <- gets frameRequest ;;
      match req with
      | Some (_, k) =>
          modify (set_frameRequest None) ;;
          animate k timestamp
      | None => ret tt
      end
  end.

(** The events in order, whatever each call returns or throws; the log
    collects the observations. *)
Fixpoint run (evs : list event) (s : state) : state * list obs :=
  match evs with
  | [] => (s, [])
  | ev :: rest =>
      let r := step ev s in
      let '(s', log) := run rest (stateOf r) in
      (s', logOf r ++ log)
  end.

(** [initPages()] leaves these styles. *)
Definition initialStyles (cur : Z) : list style :=
  mapIndexed
    (fun i _ =>
       {| styleTransition := TransitionNone;
          styleTransform := along (JsNum.ofZ ((i - cur) * 100)) |})
    0 (pages inst).

End Closure.

(** *** Construction

    [container] is [None] when no element is found, and otherwise the
    number of children of the container element; the result is [None]
    when [scrollPager] returns [undefined]. *)
Definition scrollPager (container : option nat) (options : config)
  : option (instance * state) :=
  match container with
  | None => None
  | Some n =>
      let originalPages := map Orig (seq 0 n) in
      if (length originalPages =? 0)%nat then None
      else
        let cloned := infinite options && (1 <? length originalPages)%nat in
        let pages :=
          if cloned then [LastClone] ++ originalPages ++ [FirstClone]
          else originalPages in
        let inst :=
          {| cfg := options; originalPages := originalPages;
             pages := pages |} in
        let currentIndex := if infinite options then 1 else 0 in
        Some (inst,
              {| children := pages;
                 listeners :=
                   [(WheelT, WheelListener);
                    (TouchStartT, HandleTouchStart);
                    (TouchMoveT, HandleTouchMove);
                    (TouchEndT, HandleTouchEnd)];
                 styles := initialStyles inst currentIndex;
                 currentIndex := currentIndex;
                 isAnimating := false;
                 animationFrameId := None;
                 startTimestamp := None;
                 startPosition := 0;
                 targetPosition := 0;
                 startTouch := None;
                 throttled := Throttle.init;
                 thenWait := None;
                 frameRequest := None;
                 nextFrame := 1%nat |})
  end.

(** The states a pager goes through. *)
Inductive reachable (inst : instance) : state -> Prop :=
| reachable_init :
    forall container s,
      scrollPager container (cfg inst) = Some (inst, s) ->
      reachable inst s
| reachable_step :
    forall s ev,
      reachable inst s ->
      reachable inst (stateOf (step inst ev s)).

End Pager.

Import Pager.

(** ** Vocabulary of the statements *)



(** A throttle that has invoked [fn] before: at most one timeout is
    pending, the one of [timer], and it is due one window after
    [lastTime]. *)
Definition armed {A : Type} (time : Z) (st : Throttle.t A) : Prop :=
  0 < Throttle.lastTime st /\
  (Throttle.pending st = [] \/
   exists id a,
     Throttle.pending st =
       [(id, Throttle.lastTime st + Throttle.delayOf time, a)]
     /\ Throttle.timer st = Some id /\ 0 < Throttle.delayOf time).


(** An action keeps [P] on the state and logs only observations in [L]. *)
Definition keeps {A : Type} (P : state -> Prop) (L : obs -> Prop) (m : M A)
  : Prop :=
  forall s, P s -> P (stateOf (m s)) /\ Forall L (logOf (m s)).

(** No hook is called. *)
Definition quiet (o : obs) : Prop :=
  match o with
  | BeforeChange _ _ | AfterChange _ => False
  | PreventDefault | ConsoleLog _ => True
  end.

Definition anything (o : obs) : Prop := True.

(** The indices handed to [afterChange], in order. *)
Definition afterChanges (log : list obs) : list Z :=
  flat_map (fun o => match o with AfterChange i => [i] | _ => [] end) log.

(** The calls of [beforeChange], in order. *)
Definition beforeChanges (log : list obs) : list (Z * Z) :=
  flat_map (fun o => match o with BeforeChange p n => [(p, n)] | _ => [] end)
    log.


(** The navigation calls of the API. *)
Definition isNavigation (ev : event) : bool :=
  match ev with
  | Next | Prev | ScrollTo _ => true
  | _ => false
  end.


(** The transition of [s0] is untouched in [s]. *)
Definition frozen (s0 s : state) : Prop :=
  isAnimating s = true /\
  currentIndex s = currentIndex s0 /\
  startPosition s = startPosition s0 /\
  targetPosition s = targetPosition s0 /\
  startTimestamp s = startTimestamp s0 /\
  thenWait s = thenWait s0 /\
  frameRequest s = frameRequest s0 /\
  styles s = styles s0.

(** The guard is held and nothing is pending that could release it. *)
Definition stalled (c : Z) (st : list style) (s : state) : Prop :=
  isAnimating s = true /\ thenWait s = None /\ frameRequest s = None /\
  currentIndex s = c /\ styles s = st.

(** No transition in flight. *)
Definition idle (s : state) : Prop :=
  isAnimating s = false /\ thenWait s = None /\ frameRequest s = None.

(** What construction guarantees about the two arrays. *)
Definition shaped (inst : instance) : Prop :=
  1 <= len (originalPages inst) /\
  len (pages inst) =
    if infinite (cfg inst) && (1 <? len (originalPages inst))
    then len (originalPages inst) + 2 else len (originalPages inst).

(** [visualIndex] is an offset into the visual sequence. *)
Definition validOffset (inst : instance) (s : state) : Prop :=
  0 <= currentIndex s < len (pages inst).

(** The invariant of the reachable states. *)
Definition inv (inst : instance) (s : state) : Prop :=
  (isAnimating s = false -> thenWait s = None /\ frameRequest s = None) /\
  (thenWait s = None \/ frameRequest s = None) /\
  0 <= currentIndex s /\
  (currentIndex s <= len (pages inst) - 1 \/
   (infinite (cfg inst) = true /\ len (originalPages inst) = 1
    /\ currentIndex s = 1)) /\
  (forall id r, frameRequest s = Some (id, (true, r)) ->
     0 <= r <= len (pages inst) - 1).

(** The index [scrollTo] is called with by a navigation call. *)
Definition requested (inst : instance) (s : state) (ev : event) : Z :=
  match ev with
  | Next =>
      if infinite (cfg inst) then currentIndex s + 1
      else Z.min (currentIndex s + 1) (len (originalPages inst) - 1)
  | Prev =>
      if infinite (cfg inst) then currentIndex s - 1
      else Z.max (currentIndex s - 1) 0
  | ScrollTo index => if infinite (cfg inst) then index + 1 else index
  | _ => currentIndex s
  end.

(** The statement "a vetoed command changes nothing and the pager is idle
    again", for the command [ev] issued in [s] and a hook whose result
    is then rejected. *)
Definition vetoRestores (inst : instance) (s : state) (ev : event) : Prop :=
  let s' := fst (run inst [ev; Rejected] s) in
  currentIndex s' = currentIndex s /\ styles s' = styles s /\
  afterChanges (snd (run inst [ev; Rejected] s)) = [] /\
  isAnimating s' = false.

(** The statement "[scrollTo(index)] out of range is a no-op". *)
Definition outOfRangeNoop (inst : instance) (s : state) (index : Z) : Prop :=
  stateOf (step inst (ScrollTo index) s) = s /\
  logOf (step inst (ScrollTo index) s) = [].

(** The mapping to logical indices in the words of the specification. *)
Definition toLogical (wraparound : bool) (n visualIndex : Z) : Z :=
  if wraparound then
    if visualIndex =? 0 then n - 1
    else if visualIndex =? n + 1 then 0
    else visualIndex - 1
  else visualIndex.

(** The seed used by [scrollTo] of the API. *)
Definition toVisualSeed (wraparound : bool) (k : Z) : Z :=
  if wraparound then k + 1 else k.

(** [next()] awaited: the promise is fulfilled and two frames arrive. *)
Definition nextAwaited (frames : Q * Q) : list event :=
  [Next; Fulfilled; Frame (fst frames); Frame (snd frames)].

(** The second frame ends an animation started at the first one. *)
Definition completes (d : Q) (frames : Q * Q) : Prop :=
  (~ fst frames == 0)%Q /\ (d <= snd frames - fst frames)%Q.

(** A pager with [n] pages built from [options], or an empty one when
    construction fails. *)
Definition build (n : nat) (options : config) : instance * state :=
  match scrollPager (Some n) options with
  | Some p => p
  | None =>
      ({| cfg := options; originalPages := []; pages := [] |},
       {| children := []; listeners := []; styles := []; currentIndex := 0;
          isAnimating := false; animationFrameId := None;
          startTimestamp := None; startPosition := 0; targetPosition := 0;
          startTouch := None; throttled := Throttle.init; thenWait := None;
          frameRequest := None; nextFrame := 1%nat |})
  end.

(** Configurations of the examples: the defaults with both hooks given;
    the same without wraparound; a short animation. *)
Definition vetoConfig : config :=
  {| duration := 800; direction := Vertical; infinite := true;
     throttleTime := 800; sensitivity := 1;
     beforeChange := true; afterChange := true |}.

Definition boundedConfig : config :=
  {| duration := 800; direction := Vertical; infinite := false;
     throttleTime := 800; sensitivity := 1;
     beforeChange := true; afterChange := true |}.

Definition instantConfig : config :=
  {| duration := 0; direction := Vertical; infinite := true;
     throttleTime := 800; sensitivity := 1;
     beforeChange := false; afterChange := true |}.


(** A wheel tick downwards. *)
Definition wheelDown : wheelEvent := {| deltaX := 0; deltaY := 100 |}.





(** ** Further vocabulary: the throttle *)

(** [l1] is [l2] with some elements left out. *)
Inductive subsequence {A : Type} : list A -> list A -> Prop :=
| subsequence_nil : subsequence [] []
| subsequence_skip : forall x l1 l2, subsequence l1 l2 -> subsequence l1 (x :: l2)
| subsequence_take :
    forall x l1 l2, subsequence l1 l2 -> subsequence (x :: l1) (x :: l2).

(** The timer table holds nothing, or the one timeout of [timer]. *)
Definition singleTimeout {A : Type} (st : Throttle.t A) : Prop :=
  Throttle.pending st = [] \/
  exists id due a,
    Throttle.pending st = [(id, due, a)] /\ Throttle.timer st = Some id.

(** ** Further vocabulary: the pager *)

(** The handle of a pending frame request is the one in
    [animationFrameId], and [scrollTo] is never asked to be instant. *)
Definition wired (s : state) : Prop :=
  (forall id k, frameRequest s = Some (id, k) -> animationFrameId s = Some id)
  /\ (forall p i, thenWait s = Some (p, i) -> i = false).

(** The listeners registered by construction. *)
Definition initialListeners : list (eventType * handler) :=
  [(WheelT, WheelListener); (TouchStartT, HandleTouchStart);
   (TouchMoveT, HandleTouchMove); (TouchEndT, HandleTouchEnd)].

(** [destroy()] has not been called: the container and its listeners are
    as construction left them. *)
Definition intact (inst : instance) (s : state) : Prop :=
  children s = pages inst /\ listeners s = initialListeners.

(** Every panel [i] is placed [(i - cur) * 100] percent along the axis:
    the panel at [cur] fills the viewport, its neighbours are one viewport
    away. *)
Definition settledAt (inst : instance) (cur : Z) (st : list style) : Prop :=
  map styleTransform st =
  mapIndexed (fun i _ => along inst (JsNum.ofZ ((i - cur) * 100))) 0
    (pages inst).

(** Every panel was given the transform [NaN%]. *)
Definition unplaced (inst : instance) (st : list style) : Prop :=
  map styleTransform st = map (fun _ => along inst JsNum.NaN) (pages inst).

(** The visual index a navigation call of the API ends on when it is
    accepted. *)
Definition clamped (inst : instance) (s : state) (ev : event) : Z :=
  Z.max 0 (Z.min (requested inst s ev) (len (pages inst) - 1)).

(** The index [c] is a sentinel slot: the transition to it ends with a
    remap. *)
Definition onSentinel (inst : instance) (c : Z) : bool :=
  infinite (cfg inst) && (len (pages inst) >? 1)
  && ((c >=? len (pages inst) - 1) || (c <=? 0)).

(** [prev()] awaited, and [scrollTo(k)] awaited. *)
Definition prevAwaited (frames : Q * Q) : list event :=
  [Prev; Fulfilled; Frame (fst frames); Frame (snd frames)].

Definition scrollToAwaited (k : Z) (frames : Q * Q) : list event :=
  [ScrollTo k; Fulfilled; Frame (fst frames); Frame (snd frames)].

(** A touch gesture, from its start to its end, as the two handlers see it. *)
Definition gesture (inst : instance) (now0 : Z) (p0 : touch) (now1 : Z)
  (p1 : touch) (innerWidth innerHeight : Q) : M unit :=
  bind (handleTouchStart now0 p0)
    (fun _ => handleTouchEnd inst now1 p1 innerWidth innerHeight).

(** The displacement of a gesture along the configured axis, and the
    extent of the viewport on that axis. *)
Definition travel (inst : instance) (p0 p1 : touch) : Q :=
  match direction (cfg inst) with
  | Vertical => clientY p1 - clientY p0
  | Horizontal => clientX p1 - clientX p0
  end.

Definition extent (inst : instance) (innerWidth innerHeight : Q) : Q :=
  match direction (cfg inst) with
  | Vertical => innerHeight
  | Horizontal => innerWidth
  end.

(** The gesture is quick (under 300 ms and over 50 px) or long (over a
    third of the viewport). *)
Definition pageSwipe (elapsed : Z) (distance size : Q) : Prop :=
  (elapsed < 300 /\ (50 < Qabs distance)%Q) \/ (size / 3 < Qabs distance)%Q.

(** A coordinate or an extent in whole pixels, small enough for the
    differences of two of them to be exact in the numbers of the
    engine. *)
Definition whole (q : Q) : Prop :=
  exists z : Z, Z.abs z <= 4503599627370496 /\ q = inject_Z z.

Definition wholePixels (p : touch) : Prop :=
  whole (clientX p) /\ whole (clientY p).

(** The delta [handleWheel] computes from a wheel event. *)
Definition wheelDelta (inst : instance) (e : wheelEvent) : Q :=
  match direction (cfg inst) with
  | Vertical => deltaY e * sensitivity (cfg inst)
  | Horizontal => deltaX e * sensitivity (cfg inst)
  end.

(** The pager as its hooks see it: idle on a logical index, or busy with a
    transition to one. *)
Inductive phase : Type :=
| Idle (logical : Z)
| Busy (logical : Z).

Definition phaseOf (inst : instance) (s : state) : phase :=
  if isAnimating s then Busy (getCurrentIndex inst s)
  else Idle (getCurrentIndex inst s).

(** A log whose hook calls form a chain: [beforeChange(p, n)] is called on
    an idle pager on [p] and makes it busy towards [n]; [afterChange(n)]
    is called on a pager busy towards [n] and makes it idle on [n]. *)
Inductive chain : phase -> list obs -> phase -> Prop :=
| chain_nil : forall p, chain p [] p
| chain_other :
    forall p o l q, quiet o -> chain p l q -> chain p (o :: l) q
| chain_before :
    forall i n l q,
      chain (Busy n) l q -> chain (Idle i) (BeforeChange i n :: l) q
| chain_after :
    forall n l q,
      chain (Idle n) l q -> chain (Busy n) (AfterChange n :: l) q.

(** A pending remap leads to the real panel of the sentinel slot the
    visual index rests on. *)
Definition remapOK (inst : instance) (s : state) : Prop :=
  forall id r,
    frameRequest s = Some (id, (true, r)) ->
    infinite (cfg inst) = true /\ 1 < len (pages inst) /\
    ((len (pages inst) - 1 <= currentIndex s /\ r = 1)
     \/ (currentIndex s <= 0 /\ r = len (pages inst) - 2)).

(** An action whose log is a chain between the phases before and after,
    on the states of the invariant. *)
Definition tracks {A : Type} (inst : instance) (m : M A) : Prop :=
  forall s,
    inv inst s /\ remapOK inst s ->
    (inv inst (stateOf (m s)) /\ remapOK inst (stateOf (m s))) /\
    chain (phaseOf inst s) (logOf (m s)) (phaseOf inst (stateOf (m s))).

Definition busy (p : phase) : nat :=
  match p with Idle _ => 0 | Busy _ => 1 end.

(** The visual index is the slot of a real panel, not of a clone. *)
Definition onRealPanel (inst : instance) (s : state) : Prop :=
  1 <= currentIndex s <= getTotalPages inst.

(** With wraparound and clones, an idle pager and a pager whose pending
    animation ends without a remap are on a real panel. *)
Definition restsOnReal (inst : instance) (s : state) : Prop :=
  (isAnimating s = false -> onRealPanel inst s) /\
  (forall id c, frameRequest s = Some (id, (false, c)) -> onRealPanel inst s).

(** ** Three helpers of the same file: [ez], [getDateDiff] and the
    RGBA branch of [hexRGBA] *)

Module Util.

Section Ez.

(** The code units of a string. *)
Variable C : Type.

Definition size (s : list C) : Z := Z.of_nat (List.length s).

(** [str.repeat(count)] *)
Fixpoint strRepeat (str : list C) (count : nat) : list C :=
  match count with
  | O => []
  | S k => str ++ strRepeat str k
  end.

(** [ez(num, n, str, code)], with [targetStr = String(num)]; [code] is
    [None] when the argument is left out.  This is the string the call
    returns when it returns; [ezCall] below is the call with the
    [RangeError] of strings too long for the engine. *)
Definition ez (targetStr : list C) (n : Z) (str : list C)
  (code : option bool) : list C :=
  let type := match code with Some b => b | None => false end in
  if size targetStr >=? n then targetStr
  else
    let padLength := n - size targetStr in
    let padStr :=
      firstn (Z.to_nat padLength) (strRepeat str (Z.to_nat padLength)) in
    if type then padStr ++ targetStr else targetStr ++ padStr.

(** *** The call of [ez] as a whole

    A string of the engine holds at most [maxLength] code units:
    [str.repeat(count)] and [+] throw a [RangeError] when their result
    would be longer.  [ezCall] is the call with these two errors, [None]
    for the throw; where it returns, it returns [ez]. *)

(** [str.repeat(count)] *)
Definition repeat (maxLength : Z) (str : list C) (count : nat)
  : option (list C) :=
  if maxLength <? Z.of_nat count * size str then None
  else Some (strRepeat str count).

(** [a + b] *)
Definition concat (maxLength : Z) (a b : list C) : option (list C) :=
  if maxLength <? size a + size b then None else Some (a ++ b).

Definition ezCall (maxLength : Z) (targetStr : list C) (n : Z)
  (str : list C) (code : option bool) : option (list C) :=
  let type := match code with Some b => b | None => false end in
  if size targetStr >=? n then Some targetStr
  else
    let padLength := n - size targetStr in
    match repeat maxLength str (Z.to_nat padLength) with
    | None => None
    | Some repeated =>
        let padStr := firstn (Z.to_nat padLength) repeated in
        if type then concat maxLength padStr targetStr
        else concat maxLength targetStr padStr
    end.

End Ez.

Arguments size {C} _.
Arguments strRepeat {C} _ _.
Arguments repeat {C} _ _ _.
Arguments concat {C} _ _ _.
Arguments ezCall {C} _ _ _ _ _.
Arguments ez {C} _ _ _ _.

(** The value of [unit.toLowerCase()] in [getDateDiff]. *)
Inductive unitName : Type :=
| UnitMs | UnitSecond | UnitMinute | UnitHour | UnitDay
| UnitOther.

(** The object returned when no unit is given. *)
Record parts : Type := {
  day : Z;
  hour : Z;
  minute : Z;
  second : Z;
  ms : Z
}.

Inductive dateDiff : Type :=
| InvalidDate          (* throw new Error(`Invalid date: ...`) *)
| InvalidUnit          (* throw new Error('Invalid unit. ...') *)
| Amount (value : Z)
| Parts (p : parts).

(** [getDateDiff(targetDate, unit)] at the time [now].  [date] is
    [date.getTime()] of the date built from [targetDate], [None] for
    [NaN]; [unit] is [None] when the argument is falsy; [Math.floor] of a
    quotient is [Z.div] and [%] is [Z.rem]. *)
Definition getDateDiff (date : option Z) (now : Z) (unit : option unitName)
  : dateDiff :=
  match date with
  | None => InvalidDate
  | Some time =>
      let diffMs := now - time in
      match unit with
      | Some UnitMs => Amount diffMs
      | Some UnitSecond => Amount (diffMs / 1000)
      | Some UnitMinute => Amount (diffMs / (1000 * 60))
      | Some UnitHour => Amount (diffMs / (1000 * 60 * 60))
      | Some UnitDay => Amount (diffMs / (1000 * 60 * 60 * 24))
      | Some UnitOther => InvalidUnit
      | None =>
          let seconds := diffMs / 1000 in
          let minutes := seconds / 60 in
          let hours := minutes / 60 in
          let days := hours / 24 in
          Parts {| day := days;
                   hour := Z.rem hours 24;
                   minute := Z.rem minutes 60;
                   second := Z.rem seconds 60;
                   ms := Z.rem diffMs 1000 |}
      end
  end.

End Util.

Module Colour.

Import String.
#[local] Open Scope string_scope.

(** [s.padStart(2, '0')] *)
Definition padStart2 (s : string) : string :=
  match String.length s with
  | O => "00"
  | S O => "0" ++ s
  | _ => s
  end.

(** [(x >> 16).toString().padStart(2, '0')] for an integer [x] of 32
    bits. *)
Definition channel (x : Z) : string :=
  padStart2 (DecimalString.NilZero.string_of_int (Z.to_int (Z.shiftr x 16))).

(** [convertRGBAToHex(rgba)] of [hexRGBA], from the numbers [[r, g, b]]
    taken out of the text of the colour. *)
Definition convertRGBAToHex (r g b : Z) : string :=
  "#" ++ channel r ++ channel g ++ channel b.

End Colour.

(** The milliseconds the parts of a date difference stand for. *)
Definition recompose (p : Util.parts) : Z :=
  Util.day p * 86400000 + Util.hour p * 3600000 + Util.minute p * 60000
  + Util.second p * 1000 + Util.ms p.

(** ** Tactics: symbolic execution of the closure on a state given by its
    fields *)

Ltac unfold_pager :=
  cbv beta iota zeta delta
    [step next prev apiScrollTo scrollTo destroy timeoutCallback throttledWheel
     wheelListener handleWheel handleTouchStart handleTouchMove handleTouchEnd
     afterBeforeChange animateScroll animate afterAnimation
     requestAnimationFrame cancelAnimationFrame triggerAfterChange
     updatePagesPosition removeChild removeEventListener runHandler
     getCurrentIndex run
     bind gets modify emit ret throw stateOf logOf outcomeOf fst snd
     set_children set_listeners set_styles set_currentIndex set_isAnimating
     set_animationFrameId set_startTimestamp set_startPosition
     set_targetPosition set_startTouch set_throttled set_thenWait
     set_frameRequest set_nextFrame
     children listeners styles currentIndex isAnimating animationFrameId
     startTimestamp startPosition targetPosition startTouch throttled
     thenWait frameRequest nextFrame
     cfg originalPages pages
     duration direction infinite throttleTime sensitivity beforeChange
     afterChange].

Ltac break_goal :=
  match goal with
  | |- context [match ?x with _ => _ end] =>
      lazymatch x with
      | context [match _ with _ => _ end] => fail
      | _ => destruct x eqn:?
      end
  end.

Ltac exec := unfold_pager; repeat (break_goal; unfold_pager).

Ltac simp_proj :=
  cbn [children listeners styles currentIndex isAnimating animationFrameId
       startTimestamp startPosition targetPosition startTouch throttled
       thenWait frameRequest nextFrame cfg originalPages pages
       duration direction infinite throttleTime sensitivity beforeChange
       afterChange andb negb orb] in *.

Ltac bool_hyps :=
  repeat match goal with
         | H : _ /\ _ |- _ => destruct H
         | H : ?a = ?a -> _ |- _ => specialize (H eq_refl)
         | H : (_ =? _) = true |- _ => apply Z.eqb_eq in H
         | H : (_ =? _) = false |- _ => apply Z.eqb_neq in H
         | H : (_ <=? _) = true |- _ => apply Z.leb_le in H
         | H : (_ <=? _) = false |- _ => apply Z.leb_gt in H
         | H : (_ >=? _) = true |- _ => apply Z.geb_le in H
         | H : (_ >=? _) = false |- _ => rewrite Z.geb_leb in H
         | H : (_ >? _) = true |- _ => apply Z.gtb_lt in H
         | H : (_ >? _) = false |- _ => rewrite Z.gtb_ltb in H
         | H : (_ <? _) = true |- _ => apply Z.ltb_lt in H
         | H : (_ <? _) = false |- _ => apply Z.ltb_ge in H
         | H : (_ && _) = true |- _ => apply andb_true_iff in H
         | H : Some _ = None |- _ => discriminate H
         | H : None = Some _ |- _ => discriminate H
         | H : true = false |- _ => discriminate H
         | H : false = true |- _ => discriminate H
         | H : Some _ = Some _ |- _ => inversion H; subst; clear H
         | H : (_, _) = (_, _) |- _ => inversion H; subst; clear H
         | H : context [if ?b then _ else _] |- _ => destruct b eqn:?
         end.

Ltac use_hyps :=
  repeat match goal with
         | H : forall id r, ?f = Some (id, (true, r)) -> _,
           H' : ?f = Some (_, (true, _)) |- _ =>
             pose proof (H _ _ H'); clear H
         | H : forall id r, Some _ = Some (id, (true, r)) -> _ |- _ =>
             pose proof (H _ _ eq_refl); clear H
         | H : ?P -> _, H' : ?P |- _ => specialize (H H')
         | H : _ \/ _ |- _ => destruct H
         | H : _ /\ _ |- _ => destruct H
         end.

Ltac close :=
  solve [ congruence | lia | auto
        | left; close | right; close ].

Ltac settle :=
  unfold inv, shaped, frozen, stalled, idle, quiet, anything in *;
  unfold_pager; simp_proj; bool_hyps;
  repeat match goal with |- _ /\ _ => split end;
  intros; bool_hyps; use_hyps; bool_hyps;
  repeat match goal with |- _ /\ _ => split end;
  try match goal with |- Forall _ _ => repeat constructor end;
  try close.

Ltac fields inst s :=
  destruct inst as [[d dir inf tt sens bc ac] orig pgs];
  destruct s;
  unfold inv, shaped, frozen, stalled, idle in *; simp_proj.

(** ** The throttle *)

Section ThrottleFacts.

Variable A : Type.
Variable time : Z.

Let d := Throttle.delayOf time.


Lemma sorted_lower (now : Z) (l : list Z) :
  Sorted.Sorted Z.le (now :: l) -> Forall (fun t => now <= t) l.
Proof.
  intros H. apply Sorted.Sorted_StronglySorted in H.
  - inversion H; assumption.
  - intros x y z; lia.
Qed.

Lemma sorted_relax (lo now : Z) (l : list Z) :
  lo <= now -> Sorted.Sorted Z.le (now :: l) -> Sorted.Sorted Z.le (lo :: l).
Proof.
  intros Hle H. pose proof (sorted_lower _ _ H) as Hl.
  apply Sorted.Sorted_inv in H as [H _]. constructor; [exact H|].
  destruct l; constructor. inversion Hl; subst. lia.
Qed.




End ThrottleFacts.

Section ThrottleClaims.

Variable A : Type.
Variable time : Z.





End ThrottleClaims.


(** ** Actions that keep a property *)

Lemma keeps_ret {A : Type} (P : state -> Prop) (L : obs -> Prop) (a : A) :
  keeps P L (ret a).
Proof. intros s H; split; [exact H|constructor]. Qed.

Lemma keeps_gets {A : Type} (P : state -> Prop) (L : obs -> Prop)
  (f : state -> A) : keeps P L (gets f).
Proof. intros s H; split; [exact H|constructor]. Qed.

Lemma keeps_bind {A B : Type} (P : state -> Prop) (L : obs -> Prop)
  (m : M A) (f : A -> M B) :
  keeps P L m -> (forall a, keeps P L (f a)) -> keeps P L (bind m f).
Proof.
  intros Hm Hf s Hs. destruct (Hm s Hs) as [H1 H2].
  unfold bind, stateOf, logOf in *.
  destruct (m s) as [[[a|e] s1] log1]; cbn in *.
  - destruct (Hf a s1 H1) as [H3 H4]. unfold stateOf, logOf in *.
    destruct (f a s1) as [[r s2] log2]; cbn in *.
    split; [exact H3|]. apply Forall_app; split; assumption.
  - split; assumption.
Qed.

Lemma keeps_forEach {A : Type} (P : state -> Prop) (L : obs -> Prop)
  (f : A -> M unit) (l : list A) :
  (forall x, keeps P L (f x)) -> keeps P L (forEach f l).
Proof.
  intros Hf. induction l as [|x rest IH]; cbn [forEach].
  - apply keeps_ret.
  - apply keeps_bind; [apply Hf|intros _; exact IH].
Qed.

(** The listeners of an event all keep what each handler keeps. *)
Lemma keeps_dispatch (P : state -> Prop) (L : obs -> Prop)
  (inst : instance) (e : domEvent) :
  (forall h, keeps P L (runHandler inst h e)) -> keeps P L (dispatch inst e).
Proof.
  intros Hh. unfold dispatch. apply keeps_bind; [apply keeps_gets|].
  intros ls. apply keeps_forEach. intros x. apply Hh.
Qed.

(** A property kept by every event of a list is kept by the run. *)
Lemma keeps_run (P : state -> Prop) (L : obs -> Prop) (inst : instance)
  (evs : list event) :
  Forall (fun ev => keeps P L (step inst ev)) evs ->
  forall s, P s ->
    P (fst (run inst evs s)) /\ Forall L (snd (run inst evs s)).
Proof.
  induction evs as [|ev rest IH]; intros Hall s Hs; cbn [run].
  - split; [exact Hs|constructor].
  - inversion Hall as [|? ? Hev Hrest]; subst.
    destruct (Hev s Hs) as [H1 H2].
    destruct (IH Hrest _ H1) as [H3 H4].
    destruct (run inst rest (stateOf (step inst ev s))) as [s' log].
    cbn [fst snd] in *. split; [exact H3|].
    apply Forall_app; split; assumption.
Qed.

(** ** The invariant of the pager *)

Lemma step_inv (inst : instance) (ev : event) :
  shaped inst -> keeps (inv inst) anything (step inst ev).
Proof.
  intros Hsh. destruct ev;
    try (apply keeps_dispatch; intros h; destruct h, e);
    intros s Hs; fields inst s; exec; settle.
Qed.

Lemma len_map_seq (n : nat) : len (map Orig (seq 0 n)) = Z.of_nat n.
Proof. unfold len. rewrite length_map, length_seq. reflexivity. Qed.

(** Construction yields the arrays as [shaped] describes them, and an
    initial state in the invariant. *)
Lemma scrollPager_inv (container : option nat) (options : config)
  (inst : instance) (s : state) :
  scrollPager container options = Some (inst, s) ->
  cfg inst = options /\ shaped inst /\ inv inst s /\ idle s.
Proof.
  unfold scrollPager. destruct container as [n|]; [|discriminate].
  rewrite length_map, length_seq.
  destruct (Nat.eqb_spec n 0) as [|Hn]; [discriminate|].
  intros E. inversion E; subst; clear E.
  unfold shaped, inv, idle; cbn [cfg originalPages pages currentIndex
    isAnimating thenWait frameRequest].
  rewrite len_map_seq.
  assert (Hlt : (1 <? Z.of_nat n) = (1 <? n)%nat).
  { destruct (Nat.ltb_spec 1 n), (Z.ltb_spec 1 (Z.of_nat n)); auto; lia. }
  rewrite Hlt.
  assert (Hlen : len (if infinite options && (1 <? n)%nat
                      then [LastClone] ++ map Orig (seq 0 n) ++ [FirstClone]
                      else map Orig (seq 0 n))
                 = if infinite options && (1 <? n)%nat
                   then Z.of_nat n + 2 else Z.of_nat n).
  { destruct (infinite options && (1 <? n)%nat).
    - unfold len. cbn [app length]. rewrite length_app, length_map, length_seq.
      cbn [length]. lia.
    - apply len_map_seq. }
  cbn [app] in Hlen |- *. rewrite Hlen.
  split; [reflexivity|]. split; [split; [lia|reflexivity]|].
  split; [|auto].
  split; [auto|]. split; [auto|].
  destruct (infinite options) eqn:Hinf; cbn [andb].
  - destruct (Nat.ltb_spec 1 n).
    + split; [lia|]. split; [left; lia|]. intros; discriminate.
    + split; [lia|]. split; [right; repeat split; lia|]. intros; discriminate.
  - split; [lia|]. split; [left; lia|]. intros; discriminate.
Qed.

Lemma reachable_inv (inst : instance) (s : state) :
  reachable inst s -> shaped inst /\ inv inst s.
Proof.
  induction 1 as [container s Hinit|s ev _ [Hsh Hinv]].
  - apply scrollPager_inv in Hinit. tauto.
  - split; [exact Hsh|]. apply (step_inv inst ev Hsh s Hinv).
Qed.

(** [scrollTo] registers its continuation only when none is pending. *)
Lemma reachable_guard (inst : instance) (s : state) :
  reachable inst s ->
  (isAnimating s = false -> thenWait s = None /\ frameRequest s = None) /\
  (thenWait s = None \/ frameRequest s = None).
Proof.
  intros H. apply reachable_inv in H as [_ (H1 & H2 & _)]. auto.
Qed.

Lemma reachable_run (inst : instance) (evs : list event) :
  forall s, reachable inst s -> reachable inst (fst (run inst evs s)).
Proof.
  induction evs as [|ev rest IH]; intros s Hs; cbn [run].
  - exact Hs.
  - specialize (IH _ (reachable_step inst s ev Hs)).
    destruct (run inst rest (stateOf (step inst ev s))). exact IH.
Qed.

Lemma reachable_build (n : nat) (options : config) :
  (0 < n)%nat ->
  cfg (fst (build n options)) = options /\
  reachable (fst (build n options)) (snd (build n options)).
Proof.
  intros Hn. unfold build.
  destruct (scrollPager (Some n) options) as [[inst s]|] eqn:E.
  - pose proof (scrollPager_inv _ _ _ _ E) as [Hc _]. split; [exact Hc|].
    cbn [fst snd]. apply (reachable_init inst (Some n)). rewrite Hc. exact E.
  - exfalso. unfold scrollPager in E. rewrite length_map, length_seq in E.
    destruct (Nat.eqb_spec n 0); [lia|discriminate].
Qed.

(** ** The index mappings *)

(** In wraparound mode [getOriginalIndex] is total on the integers and
    lands in [0..N-1]. *)
Lemma getOriginalIndex_wraps (inst : instance) (v : Z) :
  shaped inst -> infinite (cfg inst) = true ->
  0 <= getOriginalIndex inst v < len (originalPages inst) /\
  (v <= 0 -> getOriginalIndex inst v = len (originalPages inst) - 1) /\
  (len (originalPages inst) + 1 <= v -> getOriginalIndex inst v = 0).
Proof.
  intros [Hn Hlen] Hinf. unfold getOriginalIndex. rewrite Hinf in *.
  cbn [negb andb] in *.
  destruct (Z.leb_spec v 0), (Z.geb_spec v (len (pages inst) - 1)),
    (Z.ltb_spec 1 (len (originalPages inst))); repeat split; intros; lia.
Qed.

(** C10.  [getCurrentIndex()] returns a logical index in [0..N-1] in every
    reachable state, for every number [N >= 1] of pages; with wraparound
    the mapping from visual indices is total and sends every index at or
    below the first sentinel slot to [N-1] and every index at or beyond
    the last one ([N+1]) to [0]. *)
Theorem getCurrentIndex_in_range (inst : instance) (s : state) :
  reachable inst s ->
  1 <= getTotalPages inst /\
  0 <= getCurrentIndex inst s < getTotalPages inst /\
  (forall v : Z,
      infinite (cfg inst) = true ->
      0 <= getOriginalIndex inst v < getTotalPages inst /\
      (v <= 0 -> getOriginalIndex inst v = getTotalPages inst - 1) /\
      (getTotalPages inst + 1 <= v -> getOriginalIndex inst v = 0)).
Proof.
  intros Hr. apply reachable_inv in Hr as [Hsh Hinv].
  unfold getTotalPages, getCurrentIndex.
  split; [apply Hsh|]. split.
  - destruct (infinite (cfg inst)) eqn:Hinf.
    + apply getOriginalIndex_wraps; assumption.
    + destruct Hsh as [Hn Hlen], Hinv as (_ & _ & H0 & [Hle|(Hc & _)] & _);
        [|congruence].
      unfold getOriginalIndex. rewrite Hinf in *. cbn [negb andb] in *. lia.
  - intros v Hinf. apply getOriginalIndex_wraps; assumption.
Qed.

(** Three pages with wraparound, the third [next()] under way: the visual
    index rests on the last sentinel slot. *)
Lemma getCurrentIndex_in_range_witness :
  let inst := fst (build 3 defaults) in
  let s :=
    fst (run inst
           (nextAwaited (16%Q, 816%Q) ++ nextAwaited (900%Q, 1700%Q)
            ++ [Next; Fulfilled; Frame 1800%Q])
           (snd (build 3 defaults))) in
  currentIndex s = 4 /\ 0 <= getCurrentIndex inst s < getTotalPages inst.
Proof.
  intros inst s. split; [vm_compute; reflexivity|].
  assert (Hr : reachable inst s).
  { apply reachable_run. apply (reachable_init _ (Some 3%nat)). reflexivity. }
  exact (proj1 (proj2 (getCurrentIndex_in_range inst s Hr))).
Defined.

(** On the offsets [0..N+1] [getOriginalIndex] is the mapping in the words
    of the specification. *)
Lemma getOriginalIndex_toLogical (inst : instance) (v : Z) :
  shaped inst ->
  0 <= v <= getTotalPages inst + 1 ->
  getOriginalIndex inst v =
  toLogical (infinite (cfg inst)) (getTotalPages inst) v.
Proof.
  intros [Hn Hlen] Hv. unfold getTotalPages in *.
  unfold getOriginalIndex, toLogical.
  destruct (infinite (cfg inst)); cbn [negb andb] in *; [|reflexivity].
  destruct (Z.leb_spec v 0), (Z.geb_spec v (len (pages inst) - 1)),
    (Z.eqb_spec v 0), (Z.eqb_spec v (len (originalPages inst) + 1)),
    (Z.ltb_spec 1 (len (originalPages inst))); lia.
Qed.

(** C7.  For a valid logical index [k] the logical index of the seed of
    [k] is [k]: for [getOriginalIndex] and for the mapping in the words of
    the specification; and [getCurrentIndex()] is [k] as soon as an idle
    pager has accepted [scrollTo(k)]. *)
Theorem index_round_trip (inst : instance) (k : Z) :
  shaped inst ->
  0 <= k < getTotalPages inst ->
  getOriginalIndex inst (toVisualSeed (infinite (cfg inst)) k) = k /\
  toLogical (infinite (cfg inst)) (getTotalPages inst)
    (toVisualSeed (infinite (cfg inst)) k) = k /\
  (forall s : state,
      isAnimating s = false ->
      getCurrentIndex inst (stateOf (step inst (ScrollTo k) s)) = k).
Proof.
  intros [Hn Hlen] Hk. unfold getTotalPages in *.
  unfold getOriginalIndex, toLogical, toVisualSeed.
  destruct (infinite (cfg inst)) eqn:Hinf; cbn [negb andb] in *.
  - split; [|split].
    + destruct (Z.leb_spec (k + 1) 0), (Z.geb_spec (k + 1) (len (pages inst) - 1)),
        (Z.ltb_spec 1 (len (originalPages inst))); lia.
    + destruct (Z.eqb_spec (k + 1) 0),
        (Z.eqb_spec (k + 1) (len (originalPages inst) + 1)); lia.
    + intros s Hs. fields inst s. subst. exec; settle.
      all: unfold getOriginalIndex; simp_proj; exec; settle.
  - split; [reflexivity|]. split; [reflexivity|].
    intros s Hs. fields inst s. subst. exec; settle.
    all: unfold getOriginalIndex; simp_proj; exec; settle.
Qed.

Lemma index_round_trip_witness :
  getOriginalIndex (fst (build 3 defaults)) (toVisualSeed true 2) = 2.
Proof.
  assert (Hs : shaped (fst (build 3 defaults))).
  { split; [vm_compute; discriminate|reflexivity]. }
  assert (Hk : 0 <= 2 < getTotalPages (fst (build 3 defaults))).
  { vm_compute. split; [discriminate|reflexivity]. }
  exact (proj1 (index_round_trip (fst (build 3 defaults)) 2 Hs Hk)).
Defined.

(** ** Single flight *)


(** While the guard is held a navigation call of the API changes nothing
    at all. *)
Lemma navigation_ignored (inst : instance) (s : state) (ev : event) :
  isNavigation ev = true -> isAnimating s = true ->
  step inst ev s = (Done tt, s, []).
Proof.
  intros Hn Ha. destruct ev; try discriminate Hn;
    destruct inst as [[d dir inf tt sens bc ac] orig pgs]; destruct s;
    simp_proj; subst; reflexivity.
Qed.














(** ** Veto *)

(** Once the guard is held with nothing pending, no event releases it. *)
Lemma stalled_forever (inst : instance) (c : Z) (st : list style)
  (ev : event) : keeps (stalled c st) quiet (step inst ev).
Proof.
  destruct ev;
    try (apply keeps_dispatch; intros h; destruct h, e);
    intros s Hs; fields inst s; exec; settle.
Qed.

(** C2 (as amended).  When the result of [beforeChange] is rejected the
    animation never starts: the panel positions are those before the
    command and [afterChange] is not called.  The pager has no path back to
    idle: the visual index keeps the clamped target it was given when the
    command was accepted, the guard stays held, and from then on no event
    moves the index or the panels or calls a hook. *)
Theorem veto_leaves_guard_held (inst : instance) (s : state) (ev : event) :
  reachable inst s ->
  isAnimating s = false ->
  beforeChange (cfg inst) = true ->
  isNavigation ev = true ->
  let target :=
    Z.max 0 (Z.min (requested inst s ev) (len (pages inst) - 1)) in
  thenWait (stateOf (step inst ev s)) = Some (HookResult, false) /\
  stalled target (styles s) (fst (run inst [ev; Rejected] s)) /\
  afterChanges (snd (run inst [ev; Rejected] s)) = [] /\
  (forall evs : list event,
      stalled target (styles s)
        (fst (run inst evs (fst (run inst [ev; Rejected] s)))) /\
      Forall quiet (snd (run inst evs (fst (run inst [ev; Rejected] s))))).
Proof.
  intros Hr Ha Hb Hn target.
  destruct (reachable_guard inst s Hr) as [Hg _].
  destruct (Hg Ha) as [Hw Hf].
  assert (H : thenWait (stateOf (step inst ev s)) = Some (HookResult, false)
              /\ stalled target (styles s) (fst (run inst [ev; Rejected] s))
              /\ afterChanges (snd (run inst [ev; Rejected] s)) = []).
  { subst target. clear Hr Hg.
    destruct ev; try discriminate Hn; unfold requested;
      fields inst s; subst; exec; settle. }
  destruct H as (H1 & H2 & H3).
  split; [exact H1|]. split; [exact H2|]. split; [exact H3|].
  intros evs. apply keeps_run; [|exact H2].
  apply Forall_forall. intros e _. apply stalled_forever.
Qed.

Lemma veto_leaves_guard_held_witness :
  let inst := fst (build 3 vetoConfig) in
  let s := snd (build 3 vetoConfig) in
  stalled 2 (styles s) (fst (run inst [Next; Rejected] s)).
Proof.
  intros inst s.
  assert (Hr : reachable inst s).
  { apply (reachable_init _ (Some 3%nat)). reflexivity. }
  exact (proj1 (proj2 (veto_leaves_guard_held inst s Next Hr
                         eq_refl eq_refl eq_refl))).
Defined.

(** C2 as stated fails: three pages, wraparound, [next()] vetoed.  The
    visual index is 2 and not 1 any more, and the guard is still held. *)
Lemma veto_restores_counterexample :
  ~ vetoRestores (fst (build 3 vetoConfig)) (snd (build 3 vetoConfig)) Next.
Proof.
  unfold vetoRestores. intros (H & _). vm_compute in H. discriminate H.
Qed.

(** ** [scrollTo] of the API out of range *)

(** C3 (as amended).  [scrollTo(logicalIndex)] does not validate its
    argument.  While the guard is held it does nothing.  Otherwise an
    out-of-range index is clamped: the visual index becomes [0] for a
    negative index and [pages.length - 1] for an index of [N] or more,
    the guard is taken, the panels stay where they are until the promise
    settles, [beforeChange] is called when it is configured, and the
    continuation of the transition is registered. *)
Theorem scrollTo_out_of_range_clamps (inst : instance) (s : state) (k : Z) :
  shaped inst ->
  ~ (0 <= k < getTotalPages inst) ->
  (isAnimating s = true ->
   step inst (ScrollTo k) s = (Done tt, s, [])) /\
  (isAnimating s = false ->
   let r := step inst (ScrollTo k) s in
   let target := if k <? 0 then 0 else len (pages inst) - 1 in
   currentIndex (stateOf r) = target /\
   isAnimating (stateOf r) = true /\
   styles (stateOf r) = styles s /\
   thenWait (stateOf r) =
     Some (if beforeChange (cfg inst) then HookResult else Resolved, false) /\
   beforeChanges (logOf r) =
     (if beforeChange (cfg inst)
      then [(getOriginalIndex inst (currentIndex s),
             getOriginalIndex inst target)]
      else []) /\
   afterChanges (logOf r) = []).
Proof.
  intros Hsh Hk. split.
  - intros Ha. apply navigation_ignored; [reflexivity|exact Ha].
  - intros Ha. unfold getTotalPages in Hk.
    assert (Hcl : Z.max 0 (Z.min (if infinite (cfg inst) then k + 1 else k)
                             (len (pages inst) - 1))
                  = if k <? 0 then 0 else len (pages inst) - 1).
    { destruct Hsh as [Hn Hlen].
      destruct (infinite (cfg inst)), (Z.ltb_spec k 0),
        (Z.ltb_spec 1 (len (originalPages inst))); cbn [andb] in Hlen; lia. }
    fields inst s. subst. unfold_pager. cbn [app].
    rewrite Hcl. destruct bc; cbn; auto 10.
Qed.

Lemma scrollTo_out_of_range_clamps_witness :
  let inst := fst (build 3 boundedConfig) in
  let s := snd (build 3 boundedConfig) in
  currentIndex (stateOf (step inst (ScrollTo 5) s)) = 2.
Proof.
  intros inst s.
  assert (Hs : shaped inst).
  { split; [vm_compute; discriminate|reflexivity]. }
  assert (Hk : ~ (0 <= 5 < getTotalPages inst)).
  { vm_compute. intros [_ H]. discriminate H. }
  exact (proj1 (proj2 (scrollTo_out_of_range_clamps inst s 5 Hs Hk) eq_refl)).
Defined.

(** C3 as stated fails: three pages without wraparound, [scrollTo(5)] on
    the idle pager at page 0 moves the visual index to 2 and calls
    [beforeChange(0, 2)]. *)
Lemma scrollTo_out_of_range_counterexample :
  ~ outOfRangeNoop (fst (build 3 boundedConfig))
      (snd (build 3 boundedConfig)) 5.
Proof.
  unfold outOfRangeNoop. intros [_ H]. vm_compute in H. discriminate H.
Qed.

(** ** Boundary commands without wraparound *)

(** C4, at the failing input.  Three pages without wraparound: [prev()] on
    page 0, and [next()] on page 2, leave [getCurrentIndex()] as it is but
    run a whole transition: the guard is taken, [beforeChange] and then
    [afterChange] are called with the unchanged index.  The same wheel tick
    is swallowed by the wheel listener. *)
Theorem boundary_command_fires_afterChange :
  let inst := fst (build 3 boundedConfig) in
  let s0 := snd (build 3 boundedConfig) in
  let awaited := [Fulfilled; Frame 16; Frame 816] in
  let atLast := fst (run inst (ScrollTo 2 :: awaited) s0) in
  (* prev() on the first page *)
  getCurrentIndex inst s0 = 0 /\
  isAnimating (stateOf (step inst Prev s0)) = true /\
  snd (run inst (Prev :: awaited) s0) = [BeforeChange 0 0; AfterChange 0] /\
  getCurrentIndex inst (fst (run inst (Prev :: awaited) s0)) = 0 /\
  (* next() on the last page *)
  getCurrentIndex inst atLast = 2 /\ idle atLast /\
  isAnimating (stateOf (step inst Next atLast)) = true /\
  snd (run inst (Next :: awaited) atLast) = [BeforeChange 2 2; AfterChange 2] /\
  getCurrentIndex inst (fst (run inst (Next :: awaited) atLast)) = 2 /\
  (* the wheel on the last page *)
  step inst (Dom (WheelEvent 1000 wheelDown)) atLast
  = (Done tt, atLast, [PreventDefault]).
Proof. vm_compute. repeat split; reflexivity. Qed.

(** ** The initial visual index *)

(** Outside the case of one page with wraparound the visual index is an
    offset into the visual sequence in every reachable state. *)
Lemma visualIndex_valid (inst : instance) (s : state) :
  reachable inst s ->
  infinite (cfg inst) = false \/ 1 < getTotalPages inst ->
  validOffset inst s /\
  len (pages inst) =
    if infinite (cfg inst) && (1 <? getTotalPages inst)
    then getTotalPages inst + 2 else getTotalPages inst.
Proof.
  intros Hr Hc. apply reachable_inv in Hr as [[Hn Hlen] Hinv].
  unfold validOffset, getTotalPages in *.
  destruct Hinv as (_ & _ & H0 & [Hle|(Hi & H1 & _)] & _).
  - split; [lia|exact Hlen].
  - destruct Hc; [congruence|lia].
Qed.

(** C8, at the failing input.  One page and the default options
    (wraparound enabled): no clone is inserted, the visual sequence has
    length 1, and the initial visual index is 1, which is no offset into
    it; the only page is placed one viewport before the visible one. *)
Theorem single_page_initial_index_invalid :
  let inst := fst (build 1 defaults) in
  let s := snd (build 1 defaults) in
  reachable inst s /\
  pages inst = [Orig 0%nat] /\
  currentIndex s = 1 /\
  ~ validOffset inst s /\
  map styleTransform (styles s) = [TranslateY (JsNum.ofZ (-100))].
Proof.
  intros inst s. split.
  - apply (reachable_init _ (Some 1%nat)). reflexivity.
  - split; [reflexivity|]. split; [reflexivity|]. split; [|reflexivity].
    unfold validOffset. vm_compute. intros [_ H]. discriminate H.
Qed.

(** ** [destroy] *)

(** The first [destroy()] cancels the frame request and removes the clones
    and the touch listeners. *)
Lemma destroy_cancels_animation (inst : instance) (s : state) (id : nat)
  (k : bool * Z) :
  frameRequest s = Some (id, k) -> animationFrameId s = Some id ->
  frameRequest (stateOf (step inst Destroy s)) = None.
Proof.
  intros Hf Ha. fields inst s. subst. unfold_pager.
  rewrite Nat.eqb_refl. exec; reflexivity.
Qed.

(** C9, at the failing input.  Three pages and the default options.  The
    first [destroy()] restores the children of the container and removes
    the three touch listeners, but the listener registered for ['wheel']
    stays: a wheel event after [destroy()] still starts a transition.  The
    second [destroy()] throws [NotFoundError] from [removeChild]. *)
Theorem destroy_keeps_wheel_and_throws_twice :
  let inst := fst (build 3 defaults) in
  let s0 := snd (build 3 defaults) in
  let s1 := stateOf (step inst Destroy s0) in
  children s0 = [LastClone; Orig 0; Orig 1; Orig 2; FirstClone]%nat /\
  outcomeOf (step inst Destroy s0) = Done tt /\
  children s1 = [Orig 0; Orig 1; Orig 2]%nat /\
  listeners s1 = [(WheelT, WheelListener)] /\
  currentIndex
    (stateOf (step inst (Dom (WheelEvent 1000 wheelDown)) s1)) = 2 /\
  isAnimating
    (stateOf (step inst (Dom (WheelEvent 1000 wheelDown)) s1)) = true /\
  outcomeOf (step inst Destroy s1) = Threw NotFoundError.
Proof. vm_compute. repeat split; reflexivity. Qed.


(** ** Wraparound *)

(** A frame at or after the end of the animation ends it, whatever the
    duration: [Math.min(elapsed / duration, 1) < 1] is false, for the
    quotients [NaN] and [Infinity] of a zero duration too. *)
Lemma progress_done (d e : Q) :
  (0 <= d)%Q -> (d <= e)%Q ->
  JsNum.ltb (JsNum.min (JsNum.div e d) JsNum.one) JsNum.one = false.
Proof.
  intros Hd He. unfold JsNum.div.
  destruct (Qeq_bool d 0) eqn:Ed.
  - apply Qeq_bool_eq in Ed.
    destruct (Qeq_bool e 0) eqn:Ee; [reflexivity|].
    unfold JsNum.Qltb. destruct (Qle_bool e 0) eqn:El; cbn; [|reflexivity].
    apply Qle_bool_imp_le in El. apply Qeq_bool_neq in Ee.
    exfalso. apply Ee. apply Qle_antisym; [exact El|].
    rewrite <- Ed. exact He.
  - apply Qeq_bool_neq in Ed.
    assert (Hpos : (0 < d)%Q).
    { apply Qle_lteq in Hd as [H|H]; [exact H|]. exfalso. apply Ed.
      symmetry. exact H. }
    assert (Hq : (1 <= Qred (e / d))%Q).
    { rewrite Qred_correct. apply Qle_shift_div_l; [exact Hpos|].
      rewrite Qmult_1_l. exact He. }
    cbn [JsNum.min JsNum.one].
    destruct (Qle_bool (Qred (e / d)) 1) eqn:E1; cbn [JsNum.ltb].
    + unfold JsNum.Qltb. apply Qle_bool_iff in Hq. cbn [JsNum.one]. rewrite Hq. reflexivity.
    + reflexivity.
Qed.

(** One [next()] awaited, from an idle pager on a real page. *)
Lemma next_awaited_settles (inst : instance) (s : state) (frames : Q * Q) :
  shaped inst ->
  infinite (cfg inst) = true ->
  1 < getTotalPages inst ->
  (0 <= duration (cfg inst))%Q ->
  completes (duration (cfg inst)) frames ->
  idle s ->
  1 <= currentIndex s <= getTotalPages inst ->
  let r := run inst (nextAwaited frames) s in
  idle (fst r) /\
  currentIndex (fst r) =
    (if currentIndex s =? getTotalPages inst then 1 else currentIndex s + 1) /\
  afterChanges (snd r) =
    (if afterChange (cfg inst)
     then [currentIndex s mod getTotalPages inst] else []).
Proof.
  intros Hsh Hinf Hn Hd [Ht1 Ht2] Hidle Hc. destruct frames as [t1 t2].
  cbn [fst snd] in Ht1, Ht2.
  assert (Hf : falsy (Some t1) = false).
  { cbn [falsy]. destruct (Qeq_bool t1 0) eqn:E; [|reflexivity].
    apply Qeq_bool_eq in E. contradiction. }
  pose proof (progress_done _ _ Hd Ht2) as Hdone.
  unfold getTotalPages in *.
  assert (Hmod : currentIndex s mod len (originalPages inst) =
                 if currentIndex s =? len (originalPages inst) then 0
                 else currentIndex s).
  { destruct (Z.eqb_spec (currentIndex s) (len (originalPages inst))) as [->|].
    - apply Z_mod_same_full.
    - apply Z.mod_small. lia. }
  rewrite Hmod. clear Hmod.
  unfold nextAwaited. cbn [fst snd].
  fields inst s. subst. cbn [negb andb] in *.
  exec; cbn [app afterChanges flat_map];
    unfold getOriginalIndex; simp_proj; cbn [negb];
    repeat match goal with
           | |- context [if ?b then _ else _] => destruct b eqn:?
           end;
    settle; f_equal; lia.
Qed.

Lemma run_app (inst : instance) (evs1 evs2 : list event) (s : state) :
  run inst (evs1 ++ evs2) s =
  (fst (run inst evs2 (fst (run inst evs1 s))),
   snd (run inst evs1 s) ++ snd (run inst evs2 (fst (run inst evs1 s)))).
Proof.
  revert s. induction evs1 as [|ev rest IH]; intros s;
    cbn [app run fst snd].
  - destruct (run inst evs2 s); reflexivity.
  - rewrite IH. destruct (run inst rest (stateOf (step inst ev s))).
    cbn [fst snd]. rewrite app_assoc. reflexivity.
Qed.

Lemma afterChanges_app (l1 l2 : list obs) :
  afterChanges (l1 ++ l2) = afterChanges l1 ++ afterChanges l2.
Proof. unfold afterChanges. apply flat_map_app. Qed.

(** [j] awaited calls of [next()] on, the idle pager is on the page
    [(j + m) mod N], for [m] more calls. *)
Lemma nexts_cycle (inst : instance) (frames : list (Q * Q)) :
  shaped inst ->
  infinite (cfg inst) = true ->
  1 < getTotalPages inst ->
  (0 <= duration (cfg inst))%Q ->
  Forall (completes (duration (cfg inst))) frames ->
  forall (s : state) (j : Z),
    idle s -> 0 <= j ->
    currentIndex s = j mod getTotalPages inst + 1 ->
    let r := run inst (flat_map nextAwaited frames) s in
    idle (fst r) /\
    currentIndex (fst r) = (j + len frames) mod getTotalPages inst + 1 /\
    afterChanges (snd r) =
      (if afterChange (cfg inst)
       then map (fun i => (j + Z.of_nat i) mod getTotalPages inst)
              (seq 1 (length frames))
       else []).
Proof.
  intros Hsh Hinf Hn Hd. induction 1 as [|f rest Hf Hrest IH];
    intros s j Hidle Hj Hc.
  - cbn. unfold len. cbn [length]. rewrite Z.add_0_r.
    split; [exact Hidle|]. split; [exact Hc|].
    destruct (afterChange (cfg inst)); reflexivity.
  - cbn [flat_map]. rewrite run_app. cbn [fst snd].
    assert (Hrange : 1 <= currentIndex s <= getTotalPages inst).
    { pose proof (Z.mod_pos_bound j (getTotalPages inst)). lia. }
    destruct (next_awaited_settles inst s f Hsh Hinf Hn Hd Hf Hidle Hrange)
      as (Hi1 & Hc1 & Ha1).
    assert (Hstep : (j + 1) mod getTotalPages inst + 1 =
                    if currentIndex s =? getTotalPages inst then 1
                    else currentIndex s + 1).
    { rewrite <- Z.add_mod_idemp_l by lia.
      destruct (Z.eqb_spec (currentIndex s) (getTotalPages inst)) as [E|E].
      - replace (j mod getTotalPages inst + 1) with (getTotalPages inst) by lia.
        rewrite Z_mod_same_full. reflexivity.
      - rewrite Z.mod_small by lia. lia. }
    assert (Hlog : currentIndex s mod getTotalPages inst =
                   (j + 1) mod getTotalPages inst).
    { rewrite Hc. rewrite Z.add_mod_idemp_l by lia. reflexivity. }
    rewrite <- Hstep in Hc1.
    destruct (IH _ (j + 1) Hi1 ltac:(lia) Hc1) as (Hi2 & Hc2 & Ha2).
    split; [exact Hi2|]. split.
    + rewrite Hc2. unfold len. cbn [length]. f_equal. f_equal. lia.
    + rewrite afterChanges_app, Ha1, Ha2, Hlog.
      destruct (afterChange (cfg inst)); [|reflexivity].
      cbn [length seq map app]. change (Z.of_nat 1) with 1.
      apply (f_equal (cons _)).
      rewrite <- (seq_shift (length rest) 1), map_map. apply map_ext. intros i.
      f_equal. lia.
Qed.

(** Only [destroy()] touches the children of the container. *)
Lemma children_kept (inst : instance) (ch : list node) (ev : event) :
  ev <> Destroy ->
  keeps (fun s => children s = ch) anything (step inst ev).
Proof.
  intros Hne. destruct ev; try contradiction;
    try (apply keeps_dispatch; intros h; destruct h, e);
    intros s Hs; fields inst s; exec; settle.
Qed.

Lemma nexts_no_destroy (frames : list (Q * Q)) :
  Forall (fun ev => ev <> Destroy) (flat_map nextAwaited frames).
Proof.
  induction frames as [|f rest IH]; cbn [flat_map]; [constructor|].
  apply Forall_app. split; [|exact IH].
  unfold nextAwaited. repeat constructor; discriminate.
Qed.

(** What construction yields with wraparound and more than one page. *)
Lemma build_wraparound (n : nat) (options : config) :
  (1 < n)%nat -> infinite options = true ->
  scrollPager (Some n) options
  = Some (fst (build n options), snd (build n options)) /\
  originalPages (fst (build n options)) = map Orig (seq 0 n) /\
  length (pages (fst (build n options))) = (n + 2)%nat /\
  children (snd (build n options)) = pages (fst (build n options)) /\
  currentIndex (snd (build n options)) = 1.
Proof.
  intros Hn Hinf. unfold build, scrollPager.
  rewrite length_map, length_seq.
  destruct (Nat.eqb_spec n 0); [lia|]. rewrite Hinf.
  destruct (Nat.ltb_spec 1 n); [|lia].
  cbn [andb fst snd originalPages pages children currentIndex app length].
  rewrite length_app, length_map, length_seq. cbn [length].
  repeat split; lia.
Qed.

(** C6.  With wraparound and [N > 1] pages, [N] calls of [next()], each
    awaited until its transition has settled, lead from logical index 0
    back to logical index 0; [afterChange] observes 1, 2, ..., N-1, 0; the
    visual sequence has length [N + 2], and so has the list of children of
    the container after every event on the way. *)
Theorem wraparound_cycle (n : nat) (options : config) (frames : list (Q * Q)) :
  (1 < n)%nat ->
  infinite options = true ->
  (0 <= duration options)%Q ->
  length frames = n ->
  Forall (completes (duration options)) frames ->
  let inst := fst (build n options) in
  let s0 := snd (build n options) in
  let evs := flat_map nextAwaited frames in
  getCurrentIndex inst s0 = 0 /\
  getCurrentIndex inst (fst (run inst evs s0)) = 0 /\
  afterChanges (snd (run inst evs s0)) =
    (if afterChange options
     then map (fun j => Z.of_nat j mod Z.of_nat n) (seq 1 n) else []) /\
  length (pages inst) = (n + 2)%nat /\
  (forall k : nat,
      length (children (fst (run inst (firstn k evs) s0))) = (n + 2)%nat).
Proof.
  intros Hn Hinf Hd Hlen Hframes inst s0 evs.
  destruct (build_wraparound n options Hn Hinf)
    as (Hbuild & Horig & Hpl & Hch & Hc0).
  fold inst s0 in Hbuild, Horig, Hpl, Hch, Hc0.
  destruct (scrollPager_inv _ _ _ _ Hbuild) as (Hcfg & Hsh & _ & Hidle).
  assert (Htotal : getTotalPages inst = Z.of_nat n).
  { unfold getTotalPages. rewrite Horig. apply len_map_seq. }
  rewrite <- Hcfg in Hinf, Hd, Hframes.
  assert (H1 : 1 < getTotalPages inst) by lia.
  assert (Hstart : currentIndex s0 = 0 mod getTotalPages inst + 1).
  { rewrite Z.mod_0_l by lia. exact Hc0. }
  destruct (nexts_cycle inst frames Hsh Hinf H1 Hd Hframes s0 0 Hidle
              ltac:(lia) Hstart) as (_ & Hc & Ha).
  fold evs in Hc, Ha.
  assert (Hlogical : forall s, currentIndex s = 1 -> getCurrentIndex inst s = 0).
  { intros s Hs. unfold getCurrentIndex, getOriginalIndex.
    rewrite Hs, Hinf. cbn [negb].
    destruct Hsh as [_ Hp]. rewrite Hinf in Hp. cbn [andb] in Hp.
    unfold getTotalPages in H1.
    destruct (Z.ltb_spec 1 (len (originalPages inst))); [|lia].
    destruct (Z.leb_spec 1 0); [lia|].
    destruct (Z.geb_spec 1 (len (pages inst) - 1)); lia. }
  split; [apply Hlogical, Hc0|]. split.
  - apply Hlogical. rewrite Hc. unfold len. rewrite Hlen, Htotal.
    cbn [Z.add]. rewrite Z_mod_same_full. reflexivity.
  - split.
    + rewrite Ha, Hcfg, Hlen, Htotal.
      destruct (afterChange options); reflexivity.
    + split; [exact Hpl|]. intros k.
      assert (Hk : children (fst (run inst (firstn k evs) s0)) = children s0).
      { apply (keeps_run (fun s => children s = children s0) anything);
          [|reflexivity].
        pose proof (nexts_no_destroy frames) as Hnd. fold evs in Hnd.
        rewrite <- (firstn_skipn k evs) in Hnd.
        apply Forall_app in Hnd as [Hnd _].
        apply (Forall_impl _ (fun ev Hev => children_kept inst _ ev Hev) Hnd). }
      rewrite Hk, Hch. exact Hpl.
Qed.

(** Three pages, wraparound, duration 0: the logical indices seen by
    [afterChange] are 1, 2, 0. *)
Lemma wraparound_cycle_witness :
  afterChanges
    (snd (run (fst (build 3 instantConfig))
            (flat_map nextAwaited [(16, 16); (32, 32); (48, 48)]%Q)
            (snd (build 3 instantConfig))))
  = [1; 2; 0].
Proof.
  assert (Hf : Forall (completes (duration instantConfig))
                 [(16, 16); (32, 32); (48, 48)]%Q).
  { repeat constructor; cbn; intros H; discriminate H. }
  assert (Hd : (0 <= duration instantConfig)%Q) by (cbn; discriminate).
  exact (proj1 (proj2 (proj2
           (wraparound_cycle 3 instantConfig
              [(16, 16); (32, 32); (48, 48)]%Q
              ltac:(lia) eq_refl Hd eq_refl Hf)))).
Defined.

(** ** More on the throttle *)

Section ThrottleMore.

Variable A : Type.
Variable time : Z.

(** Once the clock has passed one window, a call does the same whatever the
    mode [type] of the throttle. *)
Lemma call_mode_irrelevant (type : option bool) (now : Z) (a : A)
  (st : Throttle.t A) :
  Throttle.delayOf time <= now ->
  Throttle.call time type now a st = Throttle.call time (Some true) now a st.
Proof.
  intros Hnow. unfold Throttle.call. cbn [Throttle.immediateOf].
  destruct (Throttle.immediateOf type); [reflexivity|].
  destruct (Z.eqb_spec (Throttle.lastTime st) 0) as [E|E]; cbn [andb];
    [|reflexivity].
  rewrite E.
  destruct (Z.ltb_spec (now - 0) (Throttle.delayOf time)); [lia|reflexivity].
Qed.

(** X1.  The mode argument of [throttle] has no effect once [Date.now()] is
    a window or more past 0: with [type = false] ("delayed" mode) the first
    call is invoked at once too, and every run equals the run in immediate
    mode. *)
Theorem throttle_mode_irrelevant (type : option bool)
  (calls : list (Z * A)) (st : Throttle.t A) :
  Forall (fun c => Throttle.delayOf time <= fst c) calls ->
  Throttle.run time type calls st = Throttle.run time (Some true) calls st.
Proof.
  intros Hall. revert st.
  induction Hall as [|[now a] rest Hnow _ IH]; intros st; cbn [Throttle.run].
  - reflexivity.
  - destruct (Throttle.fireDue (Some now) (Throttle.pending st) st)
      as [st1 log1].
    cbn [fst] in Hnow. rewrite (call_mode_irrelevant type now a st1 Hnow).
    destruct (Throttle.call time (Some true) now a st1) as [st2 inv].
    rewrite IH. reflexivity.
Qed.

Lemma call_single (type : option bool) (now : Z) (a : A) (st : Throttle.t A) :
  singleTimeout st -> singleTimeout (fst (Throttle.call time type now a st)).
Proof.
  intros Hs. unfold Throttle.call.
  destruct (Throttle.immediateOf type && (Throttle.lastTime st =? 0));
    [exact Hs|].
  destruct (now - Throttle.lastTime st <? Throttle.delayOf time);
    [|exact Hs].
  cbn [fst]. right. unfold singleTimeout. cbn [Throttle.pending Throttle.timer].
  destruct Hs as [Hp|(id & due & a' & Hp & Ht)].
  - rewrite Hp. destruct (Throttle.timer st); cbn; eauto.
  - rewrite Ht, Hp. cbn. rewrite Nat.eqb_refl. cbn. eauto.
Qed.

Lemma fire_single (id : nat) (now : Z) (st : Throttle.t A) :
  singleTimeout st -> singleTimeout (fst (Throttle.fire id now st)).
Proof.
  intros Hs. unfold Throttle.fire.
  destruct (find (fun x => Nat.eqb (Throttle.handleOf x) id)
              (Throttle.pending st)) eqn:E; [|exact Hs].
  cbn [fst]. left. cbn [Throttle.pending].
  destruct Hs as [Hp|(id' & due & a' & Hp & Ht)]; rewrite Hp in *.
  - reflexivity.
  - cbn in *. destruct (Nat.eqb id' id); [reflexivity|discriminate].
Qed.

End ThrottleMore.

Lemma throttle_mode_irrelevant_witness :
  Throttle.run 800 (Some false) [(1000, 1%nat); (1100, 2%nat)] Throttle.init
  = Throttle.run 800 (Some true) [(1000, 1%nat); (1100, 2%nat)] Throttle.init.
Proof.
  apply (throttle_mode_irrelevant nat 800 (Some false)).
  repeat (constructor; try (cbn; lia)).
Defined.

(** X2.  In every reachable state of a pager at most one timeout of the
    wheel throttle is pending, whatever the order and the times of the wheel
    events and of the timeouts. *)
Theorem one_timeout_pending (inst : instance) (s : state) :
  reachable inst s ->
  (length (Throttle.pending (throttled s)) <= 1)%nat.
Proof.
  intros Hr.
  assert (H : singleTimeout (throttled s)).
  { induction Hr as [container s Hinit|s ev _ IH].
    - unfold scrollPager in Hinit. destruct container; [|discriminate].
      destruct (length (map Orig (seq 0 n)) =? 0)%nat; [discriminate|].
      inversion Hinit; subst. left. reflexivity.
    - revert s IH.
      assert (Hk : keeps (fun s => singleTimeout (throttled s)) anything
                     (step inst ev)).
      { destruct ev;
          try (apply keeps_dispatch; intros h; destruct h, e);
          intros s Hs; fields inst s; unfold_pager;
          repeat match goal with
                 | |- context [Throttle.call ?t ?ty ?n ?a ?st] =>
                     let H := fresh "Hcall" in
                     pose proof (call_single wheelEvent t ty n a st Hs) as H;
                     destruct (Throttle.call t ty n a st) eqn:?;
                     cbn [fst] in H
                 | |- context [Throttle.fire ?i ?n ?st] =>
                     let H := fresh "Hfire" in
                     pose proof (fire_single wheelEvent i n st Hs) as H;
                     destruct (Throttle.fire i n st) eqn:?;
                     cbn [fst] in H
                 end;
          exec; settle;
          match goal with
          | Heq : Throttle.call ?t ?ty ?n ?a ?st = (?t', _)
            |- singleTimeout ?t' =>
              let H := fresh in
              pose proof (call_single wheelEvent t ty n a st Hs) as H;
              rewrite Heq in H; exact H
          | Heq : Throttle.fire ?i ?n ?st = (?t', _)
            |- singleTimeout ?t' =>
              let H := fresh in
              pose proof (fire_single wheelEvent i n st Hs) as H;
              rewrite Heq in H; exact H
          end. }
      intros s IH. apply (Hk s IH). }
  destruct H as [Hp|(id & due & a & Hp & _)]; rewrite Hp; cbn; lia.
Qed.

Lemma one_timeout_pending_witness :
  (length
     (Throttle.pending
        (throttled
           (fst (run (fst (build 3 defaults))
                   [Dom (WheelEvent 1000 wheelDown);
                    Dom (WheelEvent 1100 wheelDown);
                    Dom (WheelEvent 1200 wheelDown)]
                   (snd (build 3 defaults)))))) <= 1)%nat.
Proof.
  apply (one_timeout_pending (fst (build 3 defaults))).
  apply reachable_run. apply (reachable_init _ (Some 3%nat)). reflexivity.
Defined.

Section ThrottleTrace.

Variable A : Type.
Variable time : Z.

Let d := Throttle.delayOf time.

Lemma subsequence_refl (l : list A) : subsequence l l.
Proof. induction l; constructor; assumption. Qed.

(** What the scheduler does on an armed throttle, in full. *)
Lemma fireDue_cases (limit : option Z) (st : Throttle.t A) :
  armed time st ->
  (Throttle.pending st = [] /\
   Throttle.fireDue limit (Throttle.pending st) st = (st, []))
  \/ (exists id a,
         Throttle.pending st = [(id, Throttle.lastTime st + d, a)] /\
         0 < d /\
         ((exists now, limit = Some now /\ now < Throttle.lastTime st + d /\
                       Throttle.fireDue limit (Throttle.pending st) st
                       = (st, []))
          \/ (match limit with
              | Some now => Throttle.lastTime st + d <= now
              | None => True
              end /\
              Throttle.fireDue limit (Throttle.pending st) st
              = ({| Throttle.lastTime := Throttle.lastTime st + d;
                    Throttle.timer := Throttle.timer st;
                    Throttle.pending := [];
                    Throttle.fresh := Throttle.fresh st |},
                 [(Throttle.lastTime st + d, a)])))).
Proof.
  intros [Hpos [Hp|(id & a & Hp & Ht & Hd)]].
  - left. rewrite Hp. auto.
  - right. exists id, a. fold d in Hp, Hd. split; [exact Hp|].
    split; [exact Hd|]. rewrite Hp.
    cbn [Throttle.fireDue Throttle.dueOf Throttle.handleOf fst snd].
    assert (Hfire : Throttle.fire id (Throttle.lastTime st + d) st =
            ({| Throttle.lastTime := Throttle.lastTime st + d;
                Throttle.timer := Throttle.timer st;
                Throttle.pending := [];
                Throttle.fresh := Throttle.fresh st |}, Some a)).
    { unfold Throttle.fire. rewrite Hp. cbn. rewrite Nat.eqb_refl. cbn.
      reflexivity. }
    destruct limit as [now|].
    + destruct (Z.leb_spec (Throttle.lastTime st + d) now) as [Hdue|Hnot].
      * right. split; [exact Hdue|]. rewrite Hfire. reflexivity.
      * left. exists now. auto.
    + right. split; [exact I|]. rewrite Hfire. reflexivity.
Qed.

(** What a call does on an armed throttle with nothing due, in full. *)
Lemma call_cases (now : Z) (a : A) (st : Throttle.t A) :
  armed time st -> Throttle.lastTime st <= now ->
  (Throttle.pending st = [] \/ now < Throttle.lastTime st + d) ->
  (0 < d /\ now < Throttle.lastTime st + d /\
   Throttle.call time (Some true) now a st
   = ({| Throttle.lastTime := Throttle.lastTime st;
         Throttle.timer := Some (Throttle.fresh st);
         Throttle.pending :=
           [(Throttle.fresh st, Throttle.lastTime st + d, a)];
         Throttle.fresh := S (Throttle.fresh st) |}, None))
  \/ (Throttle.pending st = [] /\ Throttle.lastTime st + d <= now /\
      Throttle.call time (Some true) now a st
      = ({| Throttle.lastTime := now;
            Throttle.timer := Throttle.timer st;
            Throttle.pending := [];
            Throttle.fresh := Throttle.fresh st |}, Some a)).
Proof.
  intros [Hpos Hp] Hle Hwin. unfold Throttle.call.
  cbn [Throttle.immediateOf]. fold d.
  destruct (Z.eqb_spec (Throttle.lastTime st) 0) as [E0|_]; [lia|].
  cbn [andb].
  destruct (Z.ltb_spec (now - Throttle.lastTime st) d) as [Hlt|Hge].
  - left. split; [lia|]. split; [lia|].
    assert (Hc : match Throttle.timer st with
                 | Some id => Throttle.clearTimeout id (Throttle.pending st)
                 | None => Throttle.pending st
                 end = []).
    { destruct Hp as [Hp|(id & a' & Hp & Ht & _)].
      - rewrite Hp. destruct (Throttle.timer st); reflexivity.
      - rewrite Ht, Hp. cbn. rewrite Nat.eqb_refl. reflexivity. }
    rewrite Hc. cbn [app].
    replace (now + (d - (now - Throttle.lastTime st)))
      with (Throttle.lastTime st + d) by lia.
    reflexivity.
  - right. destruct Hwin as [Hw|Hw]; [|lia].
    split; [exact Hw|]. split; [lia|]. rewrite Hw. reflexivity.
Qed.

(** The arguments waiting in the timer table. *)
Let waiting (st : Throttle.t A) : list A :=
  map (@Throttle.argsOf A) (Throttle.pending st).

Lemma last_cons_inv (a x : A) (l front : list A) :
  l <> [] -> a :: l = front ++ [x] -> exists front', l = front' ++ [x].
Proof.
  intros Hne E. destruct front as [|y front'].
  - cbn in E. inversion E; subst. contradiction.
  - cbn in E. inversion E; subst. eauto.
Qed.

(** The invocations of a run from an armed throttle are, in order, some of
    the waiting arguments followed by some of the calls; the last of these
    arguments is always the last invocation. *)
Lemma run_trace (calls : list (Z * A)) :
  forall st : Throttle.t A,
    armed time st ->
    Sorted.Sorted Z.le (Throttle.lastTime st :: map fst calls) ->
    subsequence (map snd (Throttle.run time (Some true) calls st))
      (waiting st ++ map snd calls) /\
    (forall front x,
        waiting st ++ map snd calls = front ++ [x] ->
        exists pre t,
          Throttle.run time (Some true) calls st = pre ++ [(t, x)]).
Proof.
  induction calls as [|[now a] rest IH]; intros st Harmed Hs.
  - cbn [Throttle.run map]. unfold waiting. rewrite app_nil_r.
    destruct (fireDue_cases None st Harmed)
      as [[Hp E]|(id & p & Hp & Hd & [(n & En & _)|[_ E]])];
      try discriminate; rewrite E, Hp; cbn [snd map Throttle.argsOf].
    + split; [constructor|]. intros front x H.
      destruct front; discriminate H.
    + split; [apply subsequence_refl|]. intros front x H.
      destruct front as [|y [|z front]]; try discriminate H.
      inversion H; subst. exists [], (Throttle.lastTime st + d). reflexivity.
  - cbn [Throttle.run]. cbn [map fst snd] in *.
    pose proof (sorted_lower time _ _ Hs) as Hlow.
    apply Sorted.Sorted_inv in Hs as [Hs _].
    inversion Hlow as [|? ? Hnow _]; subst.
    (* the call itself, on a throttle with nothing due *)
    assert (Hcall : forall st1 : Throttle.t A,
               armed time st1 -> Throttle.lastTime st1 <= now ->
               (Throttle.pending st1 = []
                \/ now < Throttle.lastTime st1 + d) ->
               let '(st2, inv) := Throttle.call time (Some true) now a st1 in
               let log := Throttle.stamp now inv
                          ++ Throttle.run time (Some true) rest st2 in
               subsequence (map snd log) (a :: map snd rest) /\
               (forall front x,
                   a :: map snd rest = front ++ [x] ->
                   exists pre t, log = pre ++ [(t, x)])).
    { intros st1 Harmed1 Hle1 Hwin1.
      destruct (call_cases now a st1 Harmed1 Hle1 Hwin1)
        as [(Hd & Hlt & E)|(Hp & Hge & E)]; rewrite E; cbn [Throttle.stamp app].
      - match goal with
        | |- context [Throttle.run _ _ rest ?s] =>
            destruct (IH s) as [IH1 IH2]
        end.
        + split; [apply (proj1 Harmed1)|]. right.
          exists (Throttle.fresh st1), a. cbn. fold d. auto.
        + cbn [Throttle.lastTime]. apply (sorted_relax time _ now); auto.
        + unfold waiting in IH1, IH2. cbn in IH1, IH2. split; assumption.
      - match goal with
        | |- context [Throttle.run _ _ rest ?s] =>
            destruct (IH s) as [IH1 IH2]
        end.
        + split; [cbn; destruct Harmed1; lia|left; reflexivity].
        + cbn [Throttle.lastTime]. exact Hs.
        + unfold waiting in IH1, IH2. cbn in IH1, IH2.
          cbn [map snd]. split; [constructor; exact IH1|].
          intros front x H. destruct rest as [|c rest'].
          * cbn in H. destruct front as [|y [|z front]]; try discriminate H.
            inversion H; subst. cbn. exists [], now. reflexivity.
          * destruct (last_cons_inv a x (map snd (c :: rest')) front)
              as [front' Hf]; [discriminate|exact H|].
            destruct (IH2 front' x Hf) as (pre & t & Hrun).
            rewrite Hrun. exists ((now, a) :: pre), t. reflexivity. }
    destruct (fireDue_cases (Some now) st Harmed)
      as [[Hp E]|(id & p & Hp & Hd & [(n & En & Hlt & E)|[Hdue E]])];
      rewrite E; unfold waiting; rewrite Hp; cbn [map Throttle.argsOf snd app].
    + specialize (Hcall st Harmed Hnow (or_introl Hp)).
      destruct (Throttle.call time (Some true) now a st) as [st2 inv].
      exact Hcall.
    + inversion En; subst n.
      specialize (Hcall st Harmed Hnow (or_intror Hlt)).
      destruct (Throttle.call time (Some true) now a st) as [st2 inv].
      destruct Hcall as [H1 H2]. split; [constructor; exact H1|].
      intros front x H.
      destruct (last_cons_inv p x (a :: map snd rest) front)
        as [front' Hf]; [discriminate|exact H|].
      exact (H2 front' x Hf).
    + match type of E with
      | _ = (?s1, _) =>
          assert (Harmed1 : armed time s1)
            by (split; [cbn; destruct Harmed; lia|left; reflexivity]);
          specialize (Hcall s1 Harmed1 Hdue (or_introl eq_refl));
          destruct (Throttle.call time (Some true) now a s1) as [st2 inv]
      end.
      destruct Hcall as [H1 H2]. cbn [map snd app].
      split; [constructor; exact H1|].
      intros front x H.
      destruct (last_cons_inv p x (a :: map snd rest) front)
        as [front' Hf]; [discriminate|exact H|].
      destruct (H2 front' x Hf) as (pre & t & Hrun).
      match goal with
      | |- exists pre0 t0, ?hd :: _ = _ =>
          exists (hd :: pre), t
      end.
      rewrite Hrun. reflexivity.
Qed.

(** X3.  Every invocation of the throttled function carries the arguments
    of one of the calls, each call is invoked at most once and in the order
    of the calls; and the arguments of the last call of a burst are always
    invoked, as the last invocation. *)
Theorem throttle_trace (front : list (Z * A)) (final : Z * A) :
  0 < fst (hd final front) ->
  Sorted.Sorted Z.le (map fst (front ++ [final])) ->
  subsequence
    (map snd (Throttle.run time (Some true) (front ++ [final]) Throttle.init))
    (map snd (front ++ [final])) /\
  exists pre t,
    Throttle.run time (Some true) (front ++ [final]) Throttle.init
    = pre ++ [(t, snd final)].
Proof.
  intros Hpos Hs.
  destruct (front ++ [final]) as [|[now a] rest] eqn:Hcalls.
  { destruct front; discriminate Hcalls. }
  assert (Hnow : 0 < now).
  { destruct front as [|c front']; cbn in Hcalls, Hpos;
      inversion Hcalls; subst; exact Hpos. }
  assert (Hlast : a :: map snd rest = map snd front ++ [snd final]).
  { change (a :: map snd rest) with (map snd ((now, a) :: rest)).
    rewrite <- Hcalls, map_app. reflexivity. }
  cbn [Throttle.run]. unfold Throttle.init.
  cbn [Throttle.pending Throttle.fireDue].
  unfold Throttle.call.
  cbn [Throttle.immediateOf Throttle.lastTime Z.eqb andb Throttle.stamp
       app Throttle.timer Throttle.pending Throttle.fresh map snd].
  match goal with
  | |- context [Throttle.run _ _ rest ?s] =>
      destruct (run_trace rest s) as [H1 H2]
  end.
  - split; [cbn; lia|left; reflexivity].
  - exact Hs.
  - unfold waiting in H1, H2. cbn in H1, H2.
    split; [constructor; exact H1|].
    destruct rest as [|c rest'].
    + cbn. destruct (map snd front) as [|y [|z l]]; try discriminate Hlast.
      inversion Hlast; subst. exists [], now. reflexivity.
    + destruct (last_cons_inv a (snd final) (map snd (c :: rest'))
                  (map snd front)) as [front' Hf];
        [discriminate|exact Hlast|].
      destruct (H2 front' (snd final) Hf) as (pre & t & Hrun).
      rewrite Hrun. exists ((now, a) :: pre), t. reflexivity.
Qed.

End ThrottleTrace.

Lemma throttle_trace_witness :
  exists pre t,
    Throttle.run 800 (Some true)
      ([(1000, 1%nat); (1100, 2%nat)] ++ [(1200, 3%nat)]) Throttle.init
    = pre ++ [(t, 3%nat)].
Proof.
  apply (throttle_trace nat 800 [(1000, 1%nat); (1100, 2%nat)] (1200, 3%nat)).
  - cbn. lia.
  - repeat (constructor; try (cbn; lia)).
Defined.

(** ** More on [destroy] *)

Lemma step_wired (inst : instance) (ev : event) :
  keeps wired anything (step inst ev).
Proof.
  destruct ev;
    try (apply keeps_dispatch; intros h; destruct h, e);
    intros s Hs; fields inst s; unfold wired in *; simp_proj;
    exec; settle;
    match goal with
    | H : forall id k, _ = Some (id, k) -> _ |- _ = Some _ =>
        solve [eapply H; eauto | reflexivity]
    | H : forall p i, _ = Some (p, i) -> _ |- _ = false =>
        solve [eapply H; eauto | reflexivity]
    | _ => idtac
    end.
Qed.

Lemma reachable_wired (inst : instance) (s : state) :
  reachable inst s -> wired s.
Proof.
  induction 1 as [container s Hinit|s ev _ IH].
  - unfold scrollPager in Hinit. destruct container; [|discriminate].
    destruct (length (map Orig (seq 0 n)) =? 0)%nat; [discriminate|].
    inversion Hinit; subst. split; cbn; intros; discriminate.
  - apply (step_wired inst ev s IH).
Qed.

(** Only [destroy()] touches the children and the listeners. *)
Lemma intact_kept (inst : instance) (ev : event) :
  ev <> Destroy -> keeps (intact inst) anything (step inst ev).
Proof.
  intros Hne. destruct ev; try contradiction;
    try (apply keeps_dispatch; intros h; destruct h, e);
    intros s Hs; fields inst s; unfold intact in *; simp_proj;
    exec; settle.
Qed.

(** What [destroy()] does when both nodes it removes are children. *)
Lemma destroy_effect (inst : instance) (s : state) (first last : node) :
  wired s ->
  listeners s = initialListeners ->
  (if infinite (cfg inst) && (len (pages inst) >? len (originalPages inst))
   then nth_error (pages inst) (length (pages inst) - 1) = Some last /\
        nth_error (pages inst) 0 = Some first /\
        hasNode last (children s) = true /\
        hasNode first (removeNode last (children s)) = true
   else True) ->
  outcomeOf (step inst Destroy s) = Done tt /\
  children (stateOf (step inst Destroy s)) =
    (if infinite (cfg inst) && (len (pages inst) >? len (originalPages inst))
     then removeNode first (removeNode last (children s))
     else children s) /\
  listeners (stateOf (step inst Destroy s)) = [(WheelT, WheelListener)] /\
  frameRequest (stateOf (step inst Destroy s)) = None /\
  logOf (step inst Destroy s) = [].
Proof.
  intros [Hw _] Hl Hc. fields inst s. subst. unfold_pager.
  cbn [initialListeners removeListener eventType_eqb handler_eqb andb].
  destruct (inf && (len pgs >? len orig)).
  - destruct Hc as (H1 & H2 & H3 & H4). rewrite H1, H2.
    destruct frameRequest0 as [[id k]|];
      [rewrite (Hw id k eq_refl), Nat.eqb_refl|destruct animationFrameId0];
      unfold_pager; rewrite H3; unfold_pager; rewrite H4; unfold_pager;
      auto.
  - destruct frameRequest0 as [[id k]|];
      [rewrite (Hw id k eq_refl), Nat.eqb_refl|destruct animationFrameId0];
      unfold_pager; auto.
Qed.

Lemma removeNode_originals (l : list nat) (x : node) :
  (forall i, x <> Orig i) ->
  removeNode x (map Orig l ++ [x]) = map Orig l /\
  hasNode x (map Orig l ++ [x]) = true.
Proof.
  intros Hx. unfold hasNode in *.
  induction l as [|i l [IH1 IH2]]; cbn [map app removeNode existsb].
  - destruct x; cbn; rewrite ?Nat.eqb_refl; auto.
  - assert (E : node_eqb (Orig i) x = false).
    { destruct x; try reflexivity. exfalso. apply (Hx i0). reflexivity. }
    rewrite E. cbn [orb]. rewrite IH1, IH2. auto.
Qed.

Lemma nth_error_last_clone (l : list node) :
  nth_error (LastClone :: l ++ [FirstClone])
    (length (LastClone :: l ++ [FirstClone]) - 1) = Some FirstClone.
Proof.
  cbn [length]. rewrite length_app. cbn [length].
  replace (S (length l + 1) - 1)%nat with (S (length l)) by lia.
  cbn [nth_error]. rewrite nth_error_app2 by lia.
  rewrite Nat.sub_diag. reflexivity.
Qed.

(** What construction yields, in full. *)
Lemma build_shape (n : nat) (options : config) :
  (0 < n)%nat ->
  fst (build n options)
  = {| cfg := options;
       originalPages := map Orig (seq 0 n);
       pages :=
         if infinite options && (1 <? n)%nat
         then [LastClone] ++ map Orig (seq 0 n) ++ [FirstClone]
         else map Orig (seq 0 n) |} /\
  intact (fst (build n options)) (snd (build n options)).
Proof.
  intros Hn. unfold build, scrollPager. rewrite length_map, length_seq.
  destruct (Nat.eqb_spec n 0); [lia|]. cbn [fst snd].
  split; [reflexivity|]. split; reflexivity.
Qed.

(** X4.  The first [destroy()] of a pager, at any moment, returns
    normally, leaves exactly the original pages as children of the
    container, whatever their number and the wraparound setting, cancels a
    pending frame and removes the three touch listeners; the listener of
    ['wheel'] is left behind. *)
Theorem destroy_restores_children (n : nat) (options : config)
  (evs : list event) :
  (0 < n)%nat ->
  Forall (fun ev => ev <> Destroy) evs ->
  let inst := fst (build n options) in
  let s := fst (run inst evs (snd (build n options))) in
  outcomeOf (step inst Destroy s) = Done tt /\
  children (stateOf (step inst Destroy s)) = originalPages inst /\
  listeners (stateOf (step inst Destroy s)) = [(WheelT, WheelListener)] /\
  frameRequest (stateOf (step inst Destroy s)) = None.
Proof.
  intros Hn Hevs inst s.
  destruct (build_shape n options Hn) as [Hinst Hintact].
  fold inst in Hinst, Hintact.
  assert (Hs : intact inst s).
  { apply (keeps_run (intact inst) anything); [|exact Hintact].
    apply (Forall_impl _ (fun ev Hev => intact_kept inst ev Hev) Hevs). }
  assert (Hw : wired s).
  { apply (reachable_wired inst). apply reachable_run.
    apply reachable_build. exact Hn. }
  destruct Hs as [Hch Hls].
  assert (Horig : originalPages inst = map Orig (seq 0 n))
    by (rewrite Hinst; reflexivity).
  assert (Hinf : infinite (cfg inst) = infinite options)
    by (rewrite Hinst; reflexivity).
  assert (Hpages : pages inst =
                   if infinite options && (1 <? n)%nat
                   then LastClone :: map Orig (seq 0 n) ++ [FirstClone]
                   else map Orig (seq 0 n))
    by (rewrite Hinst; reflexivity).
  assert (Hcond : infinite (cfg inst)
                  && (len (pages inst) >? len (originalPages inst))
                  = infinite options && (1 <? n)%nat).
  { rewrite Hinf, Hpages, Horig. unfold len.
    destruct (infinite options); cbn [andb]; [|reflexivity].
    destruct (Nat.ltb_spec 1 n).
    - cbn [length]. rewrite length_app, length_map, length_seq. cbn [length].
      apply Z.gtb_lt. lia.
    - rewrite Z.gtb_ltb. apply Z.ltb_irrefl. }
  destruct (removeNode_originals (seq 0 n) FirstClone) as [Hr Hh];
    [intros i; discriminate|].
  destruct (destroy_effect inst s LastClone FirstClone Hw Hls)
    as (H1 & H2 & H3 & H4 & _).
  { rewrite Hcond. destruct (infinite options && (1 <? n)%nat) eqn:E;
      [|exact I].
    rewrite Hch, Hpages. split; [apply nth_error_last_clone|].
    split; [reflexivity|].
    change (hasNode FirstClone
              (LastClone :: map Orig (seq 0 n) ++ [FirstClone]))
      with (hasNode FirstClone (map Orig (seq 0 n) ++ [FirstClone])).
    change (removeNode FirstClone
              (LastClone :: map Orig (seq 0 n) ++ [FirstClone]))
      with (LastClone
              :: removeNode FirstClone (map Orig (seq 0 n) ++ [FirstClone])).
    rewrite Hh, Hr. split; reflexivity. }
  split; [exact H1|]. split; [|split; assumption].
  rewrite H2, Hcond, Hch, Hpages, Horig.
  destruct (infinite options && (1 <? n)%nat); [|reflexivity].
  change (removeNode FirstClone
            (LastClone :: map Orig (seq 0 n) ++ [FirstClone]))
    with (LastClone
            :: removeNode FirstClone (map Orig (seq 0 n) ++ [FirstClone])).
  rewrite Hr. reflexivity.
Qed.

(** Two pages, [destroy()] called while the first animation runs. *)
Lemma destroy_restores_children_witness :
  children
    (stateOf
       (step (fst (build 2 defaults)) Destroy
          (fst (run (fst (build 2 defaults)) [Next; Fulfilled; Frame 16]
                  (snd (build 2 defaults))))))
  = [Orig 0; Orig 1]%nat.
Proof.
  assert (Hevs : Forall (fun ev => ev <> Destroy) [Next; Fulfilled; Frame 16])
    by (repeat constructor; discriminate).
  exact (proj1 (proj2 (destroy_restores_children 2 defaults
                         [Next; Fulfilled; Frame 16] ltac:(lia) Hevs))).
Defined.

(** X5.  [destroy()] during an animation cancels the frame request and
    leaves the guard held: the panels stay where the cancelled animation
    left them, and from then on no event moves the visual index or the
    panels or calls a hook; [next()], [prev()] and [scrollTo()] are dead. *)
Theorem destroy_while_animating_stalls (inst : instance) (s : state) :
  reachable inst s ->
  frameRequest s <> None ->
  stalled (currentIndex s) (styles s) (stateOf (step inst Destroy s)) /\
  (forall evs : list event,
      stalled (currentIndex s) (styles s)
        (fst (run inst evs (stateOf (step inst Destroy s)))) /\
      Forall quiet (snd (run inst evs (stateOf (step inst Destroy s))))).
Proof.
  intros Hr Hf.
  destruct (reachable_guard inst s Hr) as [Hg Hone].
  destruct (reachable_wired inst s Hr) as [Hw _].
  assert (Hst : stalled (currentIndex s) (styles s)
                  (stateOf (step inst Destroy s))).
  { destruct (frameRequest s) as [[id k]|] eqn:E; [|contradiction].
    specialize (Hw id k eq_refl).
    assert (Ha : isAnimating s = true).
    { destruct (isAnimating s); [reflexivity|].
      destruct (Hg eq_refl); discriminate. }
    assert (Ht : thenWait s = None) by (destruct Hone; congruence).
    clear Hr Hg Hone Hf. fields inst s. subst. unfold_pager.
    rewrite Nat.eqb_refl. exec; settle. }
  split; [exact Hst|].
  intros evs. apply keeps_run; [|exact Hst].
  apply Forall_forall. intros e _. apply stalled_forever.
Qed.

Lemma destroy_while_animating_stalls_witness :
  let inst := fst (build 3 defaults) in
  let s := fst (run inst [Next; Fulfilled; Frame 16] (snd (build 3 defaults))) in
  stalled 2 (styles s) (stateOf (step inst Destroy s)).
Proof.
  intros inst s.
  assert (Hr : reachable inst s).
  { apply reachable_run. apply (reachable_init _ (Some 3%nat)). reflexivity. }
  assert (Hf : frameRequest s <> None) by (vm_compute; discriminate).
  exact (proj1 (destroy_while_animating_stalls inst s Hr Hf)).
Defined.

(** X6.  [destroy()] while the pager waits for the promise of
    [beforeChange] cancels nothing: the continuation stays registered, and
    when the promise is fulfilled the animation starts on the destroyed
    pager. *)
Theorem destroy_in_hook_gap_cancels_nothing (inst : instance) (s : state) :
  reachable inst s ->
  thenWait s <> None ->
  let s1 := stateOf (step inst Destroy s) in
  let s2 := stateOf (step inst Fulfilled s1) in
  thenWait s1 = thenWait s /\
  isAnimating s1 = true /\
  currentIndex s2 = currentIndex s /\
  isAnimating s2 = true /\
  frameRequest s2 <> None.
Proof.
  intros Hr Ht.
  destruct (reachable_guard inst s Hr) as [Hg Hone].
  destruct (reachable_wired inst s Hr) as [_ Hi].
  destruct (thenWait s) as [[p i]|] eqn:E; [|contradiction].
  specialize (Hi p i eq_refl). subst i.
  assert (Ha : isAnimating s = true).
  { destruct (isAnimating s); [reflexivity|].
    destruct (Hg eq_refl); discriminate. }
  assert (Hf : frameRequest s = None) by (destruct Hone; congruence).
  clear Hr Hg Hone Ht. fields inst s. subst. exec; settle.
Qed.

Lemma destroy_in_hook_gap_cancels_nothing_witness :
  let inst := fst (build 3 vetoConfig) in
  let s := fst (run inst [Next] (snd (build 3 vetoConfig))) in
  frameRequest
    (stateOf (step inst Fulfilled (stateOf (step inst Destroy s)))) <> None.
Proof.
  intros inst s.
  assert (Hr : reachable inst s).
  { apply reachable_run. apply (reachable_init _ (Some 3%nat)). reflexivity. }
  assert (Ht : thenWait s <> None) by (vm_compute; discriminate).
  exact (proj2 (proj2 (proj2 (proj2
           (destroy_in_hook_gap_cancels_nothing inst s Hr Ht))))).
Defined.

(** ** The panel positions *)

Lemma map_mapIndexed {A B C : Type} (f : Z -> A -> B) (g : B -> C)
  (l : list A) :
  forall i, map g (mapIndexed f i l) = mapIndexed (fun j x => g (f j x)) i l.
Proof.
  induction l as [|x rest IH]; intros i; cbn [mapIndexed map].
  - reflexivity.
  - rewrite IH. reflexivity.
Qed.

Lemma mapIndexed_const {A B : Type} (b : B) (l : list A) :
  forall i, mapIndexed (fun _ _ => b) i l = map (fun _ => b) l.
Proof.
  induction l as [|x rest IH]; intros i; cbn [mapIndexed map].
  - reflexivity.
  - rewrite IH. reflexivity.
Qed.

(** With a duration other than 0 the animation ends with [progress === 1]. *)
Lemma progress_exact (d e : Q) :
  (~ d == 0)%Q ->
  JsNum.ltb (JsNum.min (JsNum.div e d) JsNum.one) JsNum.one = false ->
  JsNum.eqb (JsNum.min (JsNum.div e d) JsNum.one) JsNum.one = true.
Proof.
  intros Hd. unfold JsNum.div.
  destruct (Qeq_bool d 0) eqn:Ed.
  { apply Qeq_bool_eq in Ed. contradiction. }
  cbn [JsNum.min JsNum.one].
  destruct (Qle_bool (Qred (e / d)) 1) eqn:E1; cbn [JsNum.ltb JsNum.eqb].
  - unfold JsNum.Qltb. intros H. apply negb_false_iff in H.
    apply Qle_bool_iff in E1, H. apply Qeq_bool_iff.
    apply Qle_antisym; assumption.
  - intros _. reflexivity.
Qed.

(** With the duration 0 the first frame computes [0 / 0]. *)
Lemma progress_zero_duration (d t : Q) :
  (d == 0)%Q ->
  JsNum.min (JsNum.div (t - t) d) JsNum.one = JsNum.NaN.
Proof.
  intros Hd. unfold JsNum.div.
  assert (E1 : Qeq_bool d 0 = true) by (apply Qeq_bool_iff; exact Hd).
  assert (E2 : Qeq_bool (t - t) 0 = true).
  { apply Qeq_bool_iff. unfold Qminus. apply Qplus_opp_r. }
  rewrite E1, E2. reflexivity.
Qed.

(** An idle pager has its panels in place, and keeps them there. *)
Lemma step_settled (inst : instance) (ev : event) :
  shaped inst ->
  (~ duration (cfg inst) == 0)%Q ->
  keeps (fun s => inv inst s /\
                  (isAnimating s = false ->
                   settledAt inst (currentIndex s) (styles s)))
    anything (step inst ev).
Proof.
  intros Hsh Hd.
  destruct ev;
    try (apply keeps_dispatch; intros h; destruct h, e);
    intros s [Hinv Hset]; fields inst s; exec; settle;
    first
      [ assumption
      | unfold settledAt in *; simp_proj; rewrite map_mapIndexed;
        reflexivity
      | exfalso;
        match goal with
        | H1 : JsNum.ltb ?p JsNum.one = false,
          H2 : JsNum.eqb ?p JsNum.one = false |- _ =>
            rewrite (progress_exact _ _ Hd H1) in H2; discriminate H2
        end ].
Qed.

(** X7.  With a duration other than 0, whenever the pager is idle every
    panel [i] is placed at [(i - visualIndex) * 100%] along the configured
    axis: the panel at the visual index fills the viewport and its
    neighbours sit one viewport before and after it. *)
Theorem idle_panels_in_place (inst : instance) (s : state) :
  reachable inst s ->
  (~ duration (cfg inst) == 0)%Q ->
  isAnimating s = false ->
  settledAt inst (currentIndex s) (styles s).
Proof.
  intros Hr Hd.
  assert (H : inv inst s /\
              (isAnimating s = false ->
               settledAt inst (currentIndex s) (styles s))).
  { induction Hr as [container s Hinit|s ev Hr IH].
    - destruct (scrollPager_inv _ _ _ _ Hinit) as (_ & _ & Hinv & _).
      split; [exact Hinv|]. intros _.
      unfold scrollPager in Hinit. destruct container; [|discriminate].
      destruct (length (map Orig (seq 0 n)) =? 0)%nat; [discriminate|].
      inversion Hinit as [[Hi Hs]]. unfold settledAt.
      cbn [styles currentIndex]. unfold initialStyles.
      rewrite map_mapIndexed. reflexivity.
    - apply reachable_inv in Hr as [Hsh _].
      apply (step_settled inst ev Hsh Hd s IH). }
  apply H.
Qed.

Lemma idle_panels_in_place_witness :
  let inst := fst (build 3 defaults) in
  let s :=
    fst (run inst (nextAwaited (16%Q, 816%Q)) (snd (build 3 defaults))) in
  settledAt inst 2 (styles s).
Proof.
  intros inst s.
  assert (Hr : reachable inst s).
  { apply reachable_run. apply (reachable_init _ (Some 3%nat)). reflexivity. }
  assert (Hd : (~ duration (cfg inst) == 0)%Q).
  { cbn. intros H. discriminate H. }
  exact (idle_panels_in_place inst s Hr Hd eq_refl).
Defined.

(** X8.  With the duration 0 a navigation call that does not end on a
    sentinel slot is accepted and reported, but moves nothing into place:
    the only frame computes the progress [0 / 0], the transition ends at
    once, [afterChange] is called, and the transform written to every
    panel is [NaN%]. *)
Theorem zero_duration_unplaces_panels
  (inst : instance) (s : state) (ev : event) (t : Q) :
  (duration (cfg inst) == 0)%Q ->
  idle s ->
  isNavigation ev = true ->
  onSentinel inst (clamped inst s ev) = false ->
  let r := run inst [ev; Fulfilled; Frame t] s in
  idle (fst r) /\
  currentIndex (fst r) = clamped inst s ev /\
  unplaced inst (styles (fst r)) /\
  afterChanges (snd r) =
    (if afterChange (cfg inst)
     then [getOriginalIndex inst (clamped inst s ev)] else []).
Proof.
  intros Hd Hidle Hnav Hsent.
  assert (Hns : infinite (cfg inst) = true -> 1 < len (pages inst) ->
                0 < clamped inst s ev < len (pages inst) - 1).
  { intros Hi Hl. unfold onSentinel in Hsent. rewrite Hi in Hsent.
    destruct (Z.gtb_spec (len (pages inst)) 1); [|lia].
    destruct (Z.geb_spec (clamped inst s ev) (len (pages inst) - 1)),
      (Z.leb_spec (clamped inst s ev) 0); cbn in Hsent;
      try discriminate Hsent; lia. }
  clear Hsent. unfold clamped, requested, unplaced in *.
  destruct ev; try discriminate Hnav;
    fields inst s; subst; cbn [negb andb] in *;
    exec; cbn [app afterChanges flat_map];
    repeat match goal with
           | H : context [JsNum.min (JsNum.div (t - t) ?dd) JsNum.one] |- _ =>
               rewrite (progress_zero_duration _ t Hd) in H; cbn in H
           end;
    rewrite ?(progress_zero_duration _ t Hd); cbn [JsNum.scale JsNum.shift];
    rewrite ?map_mapIndexed; cbn [styleTransform];
    rewrite ?mapIndexed_const;
    settle.
Qed.

Lemma zero_duration_unplaces_panels_witness :
  let inst := fst (build 3 instantConfig) in
  let s := snd (build 3 instantConfig) in
  unplaced inst (styles (fst (run inst [Next; Fulfilled; Frame 16] s))).
Proof.
  intros inst s.
  assert (Hd : (duration (cfg inst) == 0)%Q) by reflexivity.
  assert (Hi : idle s) by (repeat split).
  exact (proj1 (proj2 (proj2
           (zero_duration_unplaces_panels inst s Next 16 Hd Hi
              eq_refl eq_refl)))).
Defined.

(** ** Awaited navigation *)

(** X9.  [scrollTo(k)] with a valid logical index [k] on an idle pager,
    awaited: the pager is idle again, [getCurrentIndex()] is [k],
    [beforeChange] was called once with the previous logical index and
    [k], and [afterChange] once with [k]; with or without wraparound and
    for any number of pages. *)
Theorem scrollTo_valid_settles
  (inst : instance) (s : state) (k : Z) (frames : Q * Q) :
  shaped inst ->
  (0 <= duration (cfg inst))%Q ->
  completes (duration (cfg inst)) frames ->
  idle s ->
  0 <= k < getTotalPages inst ->
  let r := run inst (scrollToAwaited k frames) s in
  idle (fst r) /\
  getCurrentIndex inst (fst r) = k /\
  beforeChanges (snd r) =
    (if beforeChange (cfg inst) then [(getCurrentIndex inst s, k)] else []) /\
  afterChanges (snd r) = (if afterChange (cfg inst) then [k] else []).
Proof.
  intros Hsh Hd [Ht1 Ht2] Hidle Hk. destruct frames as [t1 t2].
  cbn [fst snd] in Ht1, Ht2.
  assert (Hf : falsy (Some t1) = false).
  { cbn [falsy]. destruct (Qeq_bool t1 0) eqn:E; [|reflexivity].
    apply Qeq_bool_eq in E. contradiction. }
  pose proof (progress_done _ _ Hd Ht2) as Hdone.
  unfold getTotalPages, scrollToAwaited in *. cbn [fst snd].
  fields inst s. subst. cbn [negb andb] in *.
  exec; cbn [app afterChanges beforeChanges flat_map];
    unfold getOriginalIndex; simp_proj; cbn [negb];
    repeat match goal with
           | |- context [if ?b then _ else _] => destruct b eqn:?
           end;
    settle; repeat f_equal; lia.
Qed.

Lemma scrollTo_valid_settles_witness :
  getCurrentIndex (fst (build 3 vetoConfig))
    (fst (run (fst (build 3 vetoConfig)) (scrollToAwaited 2 (16, 816)%Q)
            (snd (build 3 vetoConfig)))) = 2.
Proof.
  assert (Hs : shaped (fst (build 3 vetoConfig))).
  { split; [vm_compute; discriminate|reflexivity]. }
  assert (Hd : (0 <= duration (cfg (fst (build 3 vetoConfig))))%Q).
  { cbn. discriminate. }
  assert (Hc : completes (duration (cfg (fst (build 3 vetoConfig))))
                 (16, 816)%Q).
  { split; cbn; intros H; discriminate H. }
  assert (Hi : idle (snd (build 3 vetoConfig))) by (repeat split).
  assert (Hk : 0 <= 2 < getTotalPages (fst (build 3 vetoConfig))).
  { vm_compute. split; [discriminate|reflexivity]. }
  exact (proj1 (proj2 (scrollTo_valid_settles _ _ 2 _ Hs Hd Hc Hi Hk))).
Defined.

(** One [prev()] awaited, from an idle pager on a real page. *)
Lemma prev_awaited_settles (inst : instance) (s : state) (frames : Q * Q) :
  shaped inst ->
  infinite (cfg inst) = true ->
  1 < getTotalPages inst ->
  (0 <= duration (cfg inst))%Q ->
  completes (duration (cfg inst)) frames ->
  idle s ->
  1 <= currentIndex s <= getTotalPages inst ->
  let r := run inst (prevAwaited frames) s in
  idle (fst r) /\
  currentIndex (fst r) =
    (if currentIndex s =? 1 then getTotalPages inst else currentIndex s - 1).
Proof.
  intros Hsh Hinf Hn Hd [Ht1 Ht2] Hidle Hc. destruct frames as [t1 t2].
  cbn [fst snd] in Ht1, Ht2.
  assert (Hf : falsy (Some t1) = false).
  { cbn [falsy]. destruct (Qeq_bool t1 0) eqn:E; [|reflexivity].
    apply Qeq_bool_eq in E. contradiction. }
  pose proof (progress_done _ _ Hd Ht2) as Hdone.
  unfold getTotalPages, prevAwaited in *. cbn [fst snd].
  fields inst s. subst. cbn [negb andb] in *.
  exec;
    repeat match goal with
           | |- context [if ?b then _ else _] => destruct b eqn:?
           end;
    settle.
Qed.

(** X10.  With wraparound, on a real page of an idle pager, [next()] and
    [prev()] (each awaited) undo each other, in either order and across
    the ends of the sequence: the visual index and [getCurrentIndex()] are
    what they were. *)
Theorem next_prev_inverse
  (inst : instance) (s : state) (f1 f2 : Q * Q) :
  shaped inst ->
  infinite (cfg inst) = true ->
  1 < getTotalPages inst ->
  (0 <= duration (cfg inst))%Q ->
  completes (duration (cfg inst)) f1 ->
  completes (duration (cfg inst)) f2 ->
  idle s ->
  1 <= currentIndex s <= getTotalPages inst ->
  let there := fst (run inst (nextAwaited f1 ++ prevAwaited f2) s) in
  let back := fst (run inst (prevAwaited f1 ++ nextAwaited f2) s) in
  idle there /\ currentIndex there = currentIndex s /\
  getCurrentIndex inst there = getCurrentIndex inst s /\
  idle back /\ currentIndex back = currentIndex s /\
  getCurrentIndex inst back = getCurrentIndex inst s.
Proof.
  intros Hsh Hinf Hn Hd Hf1 Hf2 Hidle Hc there back.
  assert (Hthere : idle there /\ currentIndex there = currentIndex s).
  { subst there. rewrite run_app. cbn [fst].
    destruct (next_awaited_settles inst s f1 Hsh Hinf Hn Hd Hf1 Hidle Hc)
      as (Hi1 & Hc1 & _).
    destruct (prev_awaited_settles inst _ f2 Hsh Hinf Hn Hd Hf2 Hi1)
      as (Hi2 & Hc2).
    { rewrite Hc1. destruct (Z.eqb_spec (currentIndex s) (getTotalPages inst));
        lia. }
    split; [exact Hi2|]. rewrite Hc2, Hc1.
    destruct (Z.eqb_spec (currentIndex s) (getTotalPages inst)) as [E|E].
    - cbn. symmetry. exact E.
    - destruct (Z.eqb_spec (currentIndex s + 1) 1); lia. }
  assert (Hback : idle back /\ currentIndex back = currentIndex s).
  { subst back. rewrite run_app. cbn [fst].
    destruct (prev_awaited_settles inst s f1 Hsh Hinf Hn Hd Hf1 Hidle Hc)
      as (Hi1 & Hc1).
    destruct (next_awaited_settles inst _ f2 Hsh Hinf Hn Hd Hf2 Hi1)
      as (Hi2 & Hc2 & _).
    { rewrite Hc1. destruct (Z.eqb_spec (currentIndex s) 1); lia. }
    split; [exact Hi2|]. rewrite Hc2, Hc1.
    destruct (Z.eqb_spec (currentIndex s) 1) as [E|E].
    - rewrite Z.eqb_refl. symmetry. exact E.
    - destruct (Z.eqb_spec (currentIndex s - 1) (getTotalPages inst)); lia. }
  destruct Hthere as [Ht1 Ht2], Hback as [Hb1 Hb2].
  unfold getCurrentIndex. rewrite Ht2, Hb2. auto 10.
Qed.

Lemma next_prev_inverse_witness :
  currentIndex
    (fst (run (fst (build 3 defaults))
            (prevAwaited (16, 816)%Q ++ nextAwaited (900, 1700)%Q)
            (snd (build 3 defaults))))
  = currentIndex (snd (build 3 defaults)).
Proof.
  assert (Hs : shaped (fst (build 3 defaults))).
  { split; [vm_compute; discriminate|reflexivity]. }
  assert (Hn : 1 < getTotalPages (fst (build 3 defaults))) by reflexivity.
  assert (Hd : (0 <= duration (cfg (fst (build 3 defaults))))%Q).
  { cbn. discriminate. }
  assert (Hc1 : completes (duration (cfg (fst (build 3 defaults))))
                  (16, 816)%Q).
  { split; cbn; intros H; discriminate H. }
  assert (Hc2 : completes (duration (cfg (fst (build 3 defaults))))
                  (900, 1700)%Q).
  { split; cbn; intros H; discriminate H. }
  assert (Hi : idle (snd (build 3 defaults))) by (repeat split).
  assert (Hc : 1 <= currentIndex (snd (build 3 defaults))
               <= getTotalPages (fst (build 3 defaults))).
  { vm_compute. split; discriminate. }
  exact (proj1 (proj2 (proj2 (proj2 (proj2
           (next_prev_inverse _ _ _ _ Hs eq_refl Hn Hd Hc1 Hc2 Hi Hc)))))).
Defined.

(** ** Touch gestures and wheel direction *)

Lemma Qltb_lt (a b : Q) : JsNum.Qltb a b = true <-> (a < b)%Q.
Proof.
  unfold JsNum.Qltb. rewrite negb_true_iff. split.
  - intros H. apply Qnot_le_lt. intros Hle. apply Qle_bool_iff in Hle.
    congruence.
  - intros H. destruct (Qle_bool b a) eqn:E; [|reflexivity].
    apply Qle_bool_iff in E. exfalso. apply (Qlt_not_le _ _ H E).
Qed.

Lemma pageSwipe_decide (elapsed : Z) (distance size : Q) :
  ((elapsed <? 300) && JsNum.Qltb 50 (Qabs distance)
   || JsNum.Qltb (size / 3) (Qabs distance)) = true
  <-> pageSwipe elapsed distance size.
Proof.
  unfold pageSwipe.
  rewrite orb_true_iff, andb_true_iff, Z.ltb_lt, !Qltb_lt. reflexivity.
Qed.

Lemma sign_not_zero (q : Q) : negb (sign q =? 0) = true.
Proof. unfold sign. destruct (JsNum.Qltb 0 q); reflexivity. Qed.

Lemma whole_inject (z : Z) :
  Z.abs z <= 4503599627370496 -> whole (inject_Z z).
Proof. intros H. exists z. split; [exact H|reflexivity]. Qed.

(** X11.  A touch gesture in whole pixels (touch points and viewport) on
    an idle pager pages exactly when it is quick (under 300 ms and over
    50 px along the axis) or long (over a third of the viewport along the
    axis): then [scrollTo] is called once, one slot further in the
    direction of the displacement, clamped to the visual sequence;
    otherwise nothing happens but that the gesture is forgotten.  The
    displacement across the axis plays no part. *)
Theorem touch_gesture_pages_once
  (inst : instance) (s : state) (now0 now1 : Z) (p0 p1 : touch)
  (innerWidth innerHeight : Q) :
  wholePixels p0 -> wholePixels p1 ->
  whole innerWidth -> whole innerHeight ->
  isAnimating s = false ->
  let r := gesture inst now0 p0 now1 p1 innerWidth innerHeight s in
  let d := travel inst p0 p1 in
  (pageSwipe (now1 - now0) d (extent inst innerWidth innerHeight) ->
   currentIndex (stateOf r) =
     Z.max 0 (Z.min (currentIndex s + sign d) (len (pages inst) - 1)) /\
   isAnimating (stateOf r) = true /\
   thenWait (stateOf r) <> None /\
   startTouch (stateOf r) = None) /\
  (~ pageSwipe (now1 - now0) d (extent inst innerWidth innerHeight) ->
   stateOf r = set_startTouch None s /\ logOf r = []).
Proof.
  intros _ _ _ _ Ha r d. subst r d. unfold gesture, travel, extent.
  split; intros Hp; apply pageSwipe_decide in Hp || (
    assert (Hp' := fun H => Hp (proj1 (pageSwipe_decide _ _ _) H));
    apply not_true_is_false in Hp'; clear Hp; rename Hp' into Hp);
    fields inst s; subst;
    unfold_pager; cbn [touchX touchY touchTime];
    destruct dir; unfold_pager; rewrite Hp; unfold_pager;
    rewrite ?sign_not_zero; exec; settle.
Qed.

(** The scenario of 200 ms and 80 px. *)
Lemma touch_gesture_pages_once_witness :
  let inst := fst (build 3 defaults) in
  let r :=
    gesture inst 1000 {| clientX := 10; clientY := 100 |}
      1200 {| clientX := 12; clientY := 180 |} 1280 720
      (snd (build 3 defaults)) in
  currentIndex (stateOf r) = 2.
Proof.
  intros inst r.
  assert (Hp : pageSwipe (1200 - 1000)
                 (travel inst {| clientX := 10; clientY := 100 |}
                    {| clientX := 12; clientY := 180 |})
                 (extent inst 1280 720)).
  { left. split; [lia|reflexivity]. }
  assert (H0 : wholePixels {| clientX := 10; clientY := 100 |})
    by (split; apply (whole_inject _); cbn; lia).
  assert (H1 : wholePixels {| clientX := 12; clientY := 180 |})
    by (split; apply (whole_inject _); cbn; lia).
  assert (Hw : whole 1280) by (apply (whole_inject 1280); cbn; lia).
  assert (Hh : whole 720) by (apply (whole_inject 720); cbn; lia).
  exact (proj1 (proj1 (touch_gesture_pages_once inst (snd (build 3 defaults))
                         1000 1200 _ _ 1280 720 H0 H1 Hw Hh eq_refl) Hp)).
Defined.

(** X12.  [handleWheel] takes every wheel event whose delta along the
    configured axis is not positive as a step backwards: a zero delta (a
    sideways scroll on a vertical pager) pages to the previous slot like a
    negative one.  Only without wraparound on the first page is it
    swallowed. *)
Theorem wheel_without_forward_delta_goes_back
  (inst : instance) (s : state) (e : wheelEvent) :
  isAnimating s = false ->
  (wheelDelta inst e <= 0)%Q ->
  (infinite (cfg inst) = true \/ currentIndex s <> 0 ->
   currentIndex (stateOf (handleWheel inst e s)) =
     Z.max 0 (Z.min (currentIndex s - 1) (len (pages inst) - 1)) /\
   isAnimating (stateOf (handleWheel inst e s)) = true) /\
  (infinite (cfg inst) = false -> currentIndex s = 0 ->
   stateOf (handleWheel inst e s) = s).
Proof.
  intros Ha Hd.
  assert (Hs : sign (wheelDelta inst e) = -1).
  { unfold sign. destruct (JsNum.Qltb 0 (wheelDelta inst e)) eqn:E;
      [|reflexivity].
    apply Qltb_lt in E. exfalso. apply (Qlt_not_le _ _ E Hd). }
  assert (Hb : atBoundary inst (-1) (currentIndex s) = (currentIndex s =? 0)).
  { unfold atBoundary. cbn [Z.ltb Z.gtb Z.compare andb]. apply orb_false_r. }
  unfold wheelDelta in *. split.
  - intros Hc.
    assert (Hn : negb (infinite (cfg inst)) && (currentIndex s =? 0) = false).
    { destruct Hc as [Hi|Hc]; [rewrite Hi; reflexivity|].
      apply Z.eqb_neq in Hc. rewrite Hc. apply andb_false_r. }
    fields inst s. subst. unfold_pager.
    destruct dir; rewrite Hs, Hb; simp_proj; rewrite Hn; exec; settle.
  - intros Hi Hc. fields inst s. subst. unfold_pager.
    destruct dir; rewrite Hs, Hb; simp_proj; exec; settle.
Qed.

(** A wheel event that scrolls sideways only, on the initial state of a
    vertical pager with wraparound: the visual index goes from 1 to 0. *)
Lemma wheel_without_forward_delta_goes_back_witness :
  currentIndex
    (stateOf (handleWheel (fst (build 3 defaults))
                {| deltaX := 40; deltaY := 0 |} (snd (build 3 defaults))))
  = 0.
Proof.
  assert (Hd : (wheelDelta (fst (build 3 defaults))
                  {| deltaX := 40; deltaY := 0 |} <= 0)%Q).
  { cbn. discriminate. }
  exact (proj1 (proj1 (wheel_without_forward_delta_goes_back
                         (fst (build 3 defaults)) (snd (build 3 defaults))
                         {| deltaX := 40; deltaY := 0 |} eq_refl Hd)
                  (or_introl eq_refl))).
Defined.

(** ** The hooks *)

Lemma chain_app (p q r : phase) (l1 l2 : list obs) :
  chain p l1 q -> chain q l2 r -> chain p (l1 ++ l2) r.
Proof.
  intros H1 H2. induction H1; cbn [app].
  - exact H2.
  - apply chain_other; auto.
  - apply chain_before; auto.
  - apply chain_after; auto.
Qed.

Lemma chain_after_eq (n m : Z) (l : list obs) (q : phase) :
  n = m -> chain (Idle m) l q -> chain (Busy n) (AfterChange m :: l) q.
Proof. intros ->. apply chain_after. Qed.

Lemma tracks_forEach {A : Type} (inst : instance) (f : A -> M unit)
  (l : list A) :
  (forall x, tracks inst (f x)) -> tracks inst (forEach f l).
Proof.
  intros Hf. induction l as [|x rest IH]; cbn [forEach]; intros s Hs.
  - split; [exact Hs|apply chain_nil].
  - destruct (Hf x s Hs) as [H1 H2]. unfold bind, stateOf, logOf in *.
    destruct (f x s) as [[[[]|e] s1] log1]; cbn [fst snd] in *.
    + destruct (IH s1 H1) as [H3 H4]. unfold stateOf, logOf in *.
      destruct (forEach f rest s1) as [[r s2] log2]; cbn [fst snd] in *.
      split; [exact H3|]. eapply chain_app; eassumption.
    + split; assumption.
Qed.

Lemma tracks_dispatch (inst : instance) (e : domEvent) :
  (forall h, tracks inst (runHandler inst h e)) -> tracks inst (dispatch inst e).
Proof.
  intros Hh s Hs. unfold dispatch, bind, gets. cbn.
  unfold stateOf, logOf in *.
  pose proof (tracks_forEach inst (fun l => runHandler inst (snd l) e)
                (filter (fun l => eventType_eqb (fst l) (typeOf e))
                   (listeners s))
                (fun x => Hh (snd x)) s Hs) as H.
  unfold stateOf, logOf in H.
  destruct (forEach _ _ s) as [[r s2] log2]. exact H.
Qed.

Ltac use_props :=
  repeat match goal with
         | H : forall id r, ?f = Some (id, (true, r)) -> _,
           H' : ?f = Some (_, (true, _)) |- _ =>
             pose proof (H _ _ H'); clear H
         | H : forall id r, Some _ = Some (id, (true, r)) -> _ |- _ =>
             pose proof (H _ _ eq_refl); clear H
         | H : ?P -> _, H' : ?P |- _ =>
             match type of P with Prop => specialize (H H') end
         | H : _ \/ _ |- _ => destruct H
         | H : _ /\ _ |- _ => destruct H
         end.

Ltac resolve :=
  unfold inv, shaped, frozen, stalled, idle, quiet, anything in *;
  unfold_pager; simp_proj; bool_hyps; subst; simp_proj;
  repeat match goal with |- _ /\ _ => split end;
  intros; bool_hyps; use_props; bool_hyps; subst; simp_proj;
  repeat match goal with |- _ /\ _ => split end;
  try match goal with |- Forall _ _ => repeat constructor end;
  try close.

Ltac link :=
  repeat first
    [ apply chain_nil
    | apply chain_other; [exact I|]
    | apply chain_before
    | apply chain_after
    | apply chain_after_eq ].

(** With both hooks configured every event logs a chain. *)
Lemma step_tracks (inst : instance) (ev : event) :
  shaped inst ->
  beforeChange (cfg inst) = true ->
  afterChange (cfg inst) = true ->
  tracks inst (step inst ev).
Proof.
  intros Hsh Hb Ha.
  destruct ev;
    try (apply tracks_dispatch; intros h; destruct h, e);
    intros s [Hinv Hre]; fields inst s; unfold remapOK in *; simp_proj;
    subst; unfold phaseOf, getCurrentIndex; simp_proj;
    exec; resolve; link;
    unfold getOriginalIndex; simp_proj; cbn [negb];
    repeat match goal with
           | |- context [if ?b then _ else _] => destruct b eqn:?
           end;
    resolve.
Qed.

(** The initial state. *)
Lemma build_initial (n : nat) (options : config) :
  (0 < n)%nat ->
  isAnimating (snd (build n options)) = false /\
  currentIndex (snd (build n options)) = (if infinite options then 1 else 0) /\
  frameRequest (snd (build n options)) = None.
Proof.
  intros Hn. unfold build, scrollPager. rewrite length_map, length_seq.
  destruct (Nat.eqb_spec n 0); [lia|]. cbn. auto.
Qed.

Lemma run_tracks (inst : instance) (evs : list event) :
  shaped inst ->
  beforeChange (cfg inst) = true ->
  afterChange (cfg inst) = true ->
  forall s,
    inv inst s /\ remapOK inst s ->
    chain (phaseOf inst s) (snd (run inst evs s))
      (phaseOf inst (fst (run inst evs s))).
Proof.
  intros Hsh Hb Ha. induction evs as [|ev rest IH]; intros s Hs; cbn [run].
  - apply chain_nil.
  - destruct (step_tracks inst ev Hsh Hb Ha s Hs) as [H1 H2].
    specialize (IH _ H1).
    destruct (run inst rest (stateOf (step inst ev s))) as [s' log].
    cbn [fst snd] in *. eapply chain_app; eassumption.
Qed.

(** Along a chain the calls of the two hooks balance. *)
Lemma chain_balance (p q : phase) (l : list obs) :
  chain p l q ->
  (length (beforeChanges l) + busy p = length (afterChanges l) + busy q)%nat.
Proof.
  unfold beforeChanges, afterChanges.
  induction 1 as [p|p o l q Ho _ IH|i n l q _ IH|n l q _ IH];
    cbn [flat_map app length busy] in *.
  - reflexivity.
  - destruct o; try contradiction; cbn [app]; exact IH.
  - lia.
  - lia.
Qed.

(** X13.  With both hooks configured, whatever happens to a pager (calls,
    input, frames, timeouts, fulfilled and rejected promises, [destroy()])
    its hook calls form a chain from the first page: every
    [beforeChange(p, n)] is called with [p] the logical index last
    reported ([0] at first) and no other hook call comes before its
    [afterChange(n)], which reports exactly the announced [n], also after
    a remap; so [afterChange] is never called twice for one command nor
    without a [beforeChange], and at most one [beforeChange] is
    unanswered. *)
Theorem hooks_form_a_chain (n : nat) (options : config) (evs : list event) :
  (0 < n)%nat ->
  beforeChange options = true ->
  afterChange options = true ->
  let inst := fst (build n options) in
  let r := run inst evs (snd (build n options)) in
  chain (Idle 0) (snd r) (phaseOf inst (fst r)) /\
  (length (afterChanges (snd r)) <= length (beforeChanges (snd r))
   <= S (length (afterChanges (snd r))))%nat.
Proof.
  intros Hn Hb Ha inst r.
  destruct (reachable_build n options Hn) as [Hcfg Hreach].
  fold inst in Hcfg, Hreach.
  destruct (reachable_inv inst _ Hreach) as [Hsh Hinv].
  rewrite <- Hcfg in Hb, Ha.
  destruct (build_initial n options Hn) as (Hi1 & Hi2 & Hi3).
  assert (Hstart : phaseOf inst (snd (build n options)) = Idle 0).
  { unfold phaseOf, getCurrentIndex, getOriginalIndex.
    rewrite Hi1, Hi2, Hcfg.
    destruct (infinite options); cbn [negb]; [|reflexivity].
    destruct (1 <=? 0) eqn:E; [discriminate E|].
    destruct (1 >=? len (pages inst) - 1); reflexivity. }
  assert (Hchain : chain (Idle 0) (snd r) (phaseOf inst (fst r))).
  { rewrite <- Hstart. apply run_tracks; auto. split; [exact Hinv|].
    intros id k H. rewrite Hi3 in H. discriminate H. }
  split; [exact Hchain|].
  pose proof (chain_balance _ _ _ Hchain) as Hbal. cbn [busy] in Hbal.
  destruct (phaseOf inst (fst r)); cbn [busy] in Hbal; lia.
Qed.

(** A vetoed [next()] on three pages, then more calls: one [beforeChange]
    stays unanswered. *)
Lemma hooks_form_a_chain_witness :
  let r :=
    run (fst (build 3 vetoConfig))
      (nextAwaited (16, 816)%Q ++ [Next; Rejected; Prev; Next])
      (snd (build 3 vetoConfig)) in
  (length (afterChanges (snd r)) <= length (beforeChanges (snd r))
   <= S (length (afterChanges (snd r))))%nat.
Proof.
  intros r.
  exact (proj2 (hooks_form_a_chain 3 vetoConfig
                  (nextAwaited (16, 816)%Q ++ [Next; Rejected; Prev; Next])
                  ltac:(lia) eq_refl eq_refl)).
Defined.

(** ** Clones are only passed through *)

Lemma step_rests (inst : instance) (ev : event) :
  shaped inst ->
  infinite (cfg inst) = true ->
  1 < getTotalPages inst ->
  keeps (fun s => (inv inst s /\ remapOK inst s) /\ restsOnReal inst s)
    anything (step inst ev).
Proof.
  intros Hsh Hinf Hn. unfold getTotalPages in Hn.
  destruct ev;
    try (apply keeps_dispatch; intros h; destruct h, e);
    intros s [[Hinv Hre] Hrest]; fields inst s;
    unfold remapOK, restsOnReal, onRealPanel, getTotalPages in *; simp_proj;
    subst; exec; resolve;
    repeat match goal with
           | H : forall id c, ?f = Some (id, (false, c)) -> _,
             H' : ?f = Some (_, (false, _)) |- _ =>
               pose proof (H _ _ H'); clear H
           | H : forall id c, Some _ = Some (id, (false, c)) -> _ |- _ =>
               pose proof (H _ _ eq_refl); clear H
           end;
    resolve.
Qed.

(** What construction yields, for any container. *)
Lemma scrollPager_initial (container : option nat) (options : config)
  (inst : instance) (s : state) :
  scrollPager container options = Some (inst, s) ->
  exists n,
    (0 < n)%nat /\
    cfg inst = options /\
    originalPages inst = map Orig (seq 0 n) /\
    pages inst =
      (if infinite options && (1 <? n)%nat
       then LastClone :: map Orig (seq 0 n) ++ [FirstClone]
       else map Orig (seq 0 n)) /\
    currentIndex s = (if infinite options then 1 else 0) /\
    isAnimating s = false /\ thenWait s = None /\ frameRequest s = None /\
    intact inst s.
Proof.
  unfold scrollPager. destruct container as [n|]; [|discriminate].
  rewrite length_map, length_seq.
  destruct (Nat.eqb_spec n 0); [discriminate|].
  intros E. inversion E; subst; clear E. exists n.
  cbn. repeat split; auto. lia.
Qed.

Lemma reachable_pages (inst : instance) (s : state) :
  reachable inst s ->
  infinite (cfg inst) = true ->
  1 < getTotalPages inst ->
  pages inst = LastClone :: originalPages inst ++ [FirstClone].
Proof.
  induction 1 as [container s Hinit|s ev _ IH]; [|exact IH].
  intros Hinf Hn.
  destruct (scrollPager_initial _ _ _ _ Hinit)
    as (n & Hpos & _ & Ho & Hp & _).
  unfold getTotalPages in Hn. rewrite Ho, len_map_seq in Hn.
  rewrite Hp, Ho, Hinf.
  destruct (Nat.ltb_spec 1 n); [reflexivity|lia].
Qed.

(** X14.  With wraparound and more than one page, an idle pager never
    rests on a sentinel clone: in every reachable idle state the visual
    index is the slot of a real panel ([1..N]), the panel of the logical
    index; the clones are only passed through during a transition. *)
Theorem idle_pager_on_real_panel (inst : instance) (s : state) :
  reachable inst s ->
  infinite (cfg inst) = true ->
  1 < getTotalPages inst ->
  isAnimating s = false ->
  1 <= currentIndex s <= getTotalPages inst /\
  nth_error (pages inst) (Z.to_nat (currentIndex s))
  = nth_error (originalPages inst) (Z.to_nat (getCurrentIndex inst s)).
Proof.
  intros Hr Hinf Hn Ha.
  pose proof (reachable_pages inst s Hr Hinf Hn) as Hpages.
  assert (H : (inv inst s /\ remapOK inst s) /\ restsOnReal inst s).
  { clear Ha Hpages. induction Hr as [container s Hinit|s ev Hr IH].
    - destruct (scrollPager_inv _ _ _ _ Hinit) as (_ & _ & Hinv & _).
      destruct (scrollPager_initial _ _ _ _ Hinit)
        as (n & _ & _ & _ & _ & Hc & _ & _ & Hf & _).
      rewrite Hinf in Hc.
      split; [split; [exact Hinv|]|split].
      + intros id k H. rewrite Hf in H. discriminate H.
      + intros _. unfold onRealPanel. rewrite Hc. lia.
      + intros id k H. rewrite Hf in H. discriminate H.
    - apply reachable_inv in Hr as [Hsh _].
      apply (step_rests inst ev Hsh Hinf Hn s IH). }
  destruct H as [[Hinv _] [Hreal _]]. specialize (Hreal Ha).
  unfold onRealPanel in Hreal. split; [exact Hreal|].
  unfold getCurrentIndex, getOriginalIndex, getTotalPages in *.
  rewrite Hinf. cbn [negb].
  assert (Hlen : len (pages inst) = len (originalPages inst) + 2).
  { rewrite Hpages. unfold len. cbn [length]. rewrite length_app.
    cbn [length]. lia. }
  destruct (Z.leb_spec (currentIndex s) 0); [lia|].
  destruct (Z.geb_spec (currentIndex s) (len (pages inst) - 1)); [lia|].
  rewrite Hpages.
  replace (Z.to_nat (currentIndex s))
    with (S (Z.to_nat (currentIndex s - 1))) by lia.
  cbn [nth_error]. apply nth_error_app1. unfold len in *. lia.
Qed.

Lemma idle_pager_on_real_panel_witness :
  let inst := fst (build 3 defaults) in
  let s :=
    fst (run inst
           (nextAwaited (16, 816)%Q ++ nextAwaited (900, 1700)%Q
            ++ nextAwaited (1800, 2600)%Q)
           (snd (build 3 defaults))) in
  1 <= currentIndex s <= getTotalPages inst.
Proof.
  intros inst s.
  assert (Hr : reachable inst s).
  { apply reachable_run. apply (reachable_init _ (Some 3%nat)). reflexivity. }
  exact (proj1 (idle_pager_on_real_panel inst s Hr eq_refl eq_refl eq_refl)).
Defined.

(** ** The helpers *)

Section EzFacts.

Variable C : Type.

Lemma strRepeat_length (str : list C) (count : nat) :
  length (Util.strRepeat str count) = (count * length str)%nat.
Proof.
  induction count as [|k IH]; cbn [Util.strRepeat]; [reflexivity|].
  rewrite length_app, IH. lia.
Qed.

Lemma strRepeat_units (str : list C) (count : nat) :
  Forall (fun c => In c str) (Util.strRepeat str count).
Proof.
  induction count as [|k IH]; cbn [Util.strRepeat]; [constructor|].
  apply Forall_app. split; [|exact IH]. apply Forall_forall. auto.
Qed.

Lemma ez_size (targetStr : list C) (n : Z) (str : list C)
  (code : option bool) :
  str <> [] ->
  Util.size (Util.ez targetStr n str code) = Z.max (Util.size targetStr) n.
Proof.
  intros Hne. unfold Util.ez, Util.size.
  destruct (Z.geb_spec (Z.of_nat (length targetStr)) n) as [Hge|Hlt]; [lia|].
  set (k := Z.to_nat (n - Z.of_nat (length targetStr))).
  assert (Hk : length (firstn k (Util.strRepeat str k)) = k).
  { rewrite length_firstn, strRepeat_length.
    destruct str as [|c str']; [contradiction|]. cbn [length].
    apply Nat.min_l. nia. }
  destruct code as [[]|]; rewrite length_app, Hk; subst k; lia.
Qed.

Lemma ez_shape (targetStr : list C) (n : Z) (str : list C)
  (code : option bool) :
  str <> [] ->
  exists pad,
    Util.size pad = Z.max 0 (n - Util.size targetStr) /\
    Forall (fun c => In c str) pad /\
    Util.ez targetStr n str code =
      (if match code with Some b => b | None => false end
       then pad ++ targetStr else targetStr ++ pad).
Proof.
  intros Hne.
  pose proof (ez_size targetStr n str code Hne) as Hsize.
  revert Hsize. unfold Util.ez, Util.size.
  destruct (Z.geb_spec (Z.of_nat (length targetStr)) n) as [Hge|Hlt].
  - intros _. exists []. cbn [length]. split; [lia|].
    split; [constructor|]. rewrite app_nil_r.
    destruct code as [[]|]; reflexivity.
  - set (k := Z.to_nat (n - Z.of_nat (length targetStr))).
    intros Hsize.
    exists (firstn k (Util.strRepeat str k)).
    split.
    + destruct code as [[]|]; rewrite length_app in Hsize; lia.
    + split; [|reflexivity].
      pose proof (strRepeat_units str k) as Hu.
      rewrite <- (firstn_skipn k (Util.strRepeat str k)) in Hu.
      apply Forall_app in Hu. apply Hu.
Qed.

(** The call throws exactly when the repeated pad string or the padded
    string would pass the limit, and otherwise returns [ez]. *)
Lemma ezCall_cases (maxLength : Z) (targetStr : list C) (n : Z)
  (str : list C) (code : option bool) :
  str <> [] ->
  Util.ezCall maxLength targetStr n str code
  = if (Util.size targetStr <? n)
       && (maxLength
           <? Z.max n ((n - Util.size targetStr) * Util.size str))
    then None
    else Some (Util.ez targetStr n str code).
Proof.
  intros Hne. unfold Util.ezCall, Util.ez.
  destruct (Z.geb_spec (Util.size targetStr) n) as [Hge|Hlt].
  - destruct (Z.ltb_spec (Util.size targetStr) n); [lia|reflexivity].
  - destruct (Z.ltb_spec (Util.size targetStr) n) as [_|]; [|lia].
    cbn [andb]. unfold Util.repeat.
    rewrite Z2Nat.id by lia.
    set (k := Z.to_nat (n - Util.size targetStr)).
    assert (Hk : Util.size (firstn k (Util.strRepeat str k))
                 = n - Util.size targetStr).
    { unfold Util.size. rewrite length_firstn, strRepeat_length.
      destruct str as [|c str']; [contradiction|]. cbn [length].
      rewrite Nat.min_l by nia. subst k. unfold Util.size in *. lia. }
    assert (Hs : 1 <= Util.size str).
    { destruct str; [contradiction|]. unfold Util.size. cbn [length]. lia. }
    destruct (Z.ltb_spec maxLength ((n - Util.size targetStr) * Util.size str))
      as [Hbig|Hfit].
    + destruct (Z.ltb_spec maxLength
                  (Z.max n ((n - Util.size targetStr) * Util.size str)));
        [reflexivity|lia].
    + unfold Util.concat. rewrite Hk.
      replace (n - Util.size targetStr + Util.size targetStr) with n by lia.
      replace (Util.size targetStr + (n - Util.size targetStr)) with n by lia.
      destruct (Z.ltb_spec maxLength n) as [Hn|Hn];
        destruct (Z.ltb_spec maxLength
                    (Z.max n ((n - Util.size targetStr) * Util.size str)));
        try lia; destruct code as [[]|]; reflexivity.
Qed.

(** X15.  With a non-empty pad string, on an engine whose strings hold at
    most [maxLength] code units, [ez] throws a [RangeError] exactly when
    the target is shorter than [n] and the repeated pad string or the
    padded string would be longer than [maxLength]; otherwise it returns
    a string of length [max(n, length)]: the target itself when it is
    long enough, and else the target with exactly [n - length] code units
    of the pad string added, after it by default and before it when
    [code] is true; the target is never cut. *)
Theorem ez_pads (maxLength : Z) (targetStr : list C) (n : Z)
  (str : list C) (code : option bool) :
  str <> [] ->
  (Util.ezCall maxLength targetStr n str code = None <->
   Util.size targetStr < n /\
   (maxLength < (n - Util.size targetStr) * Util.size str
    \/ maxLength < n)) /\
  (forall r,
      Util.ezCall maxLength targetStr n str code = Some r ->
      r = Util.ez targetStr n str code /\
      Util.size r = Z.max (Util.size targetStr) n /\
      exists pad,
        Util.size pad = Z.max 0 (n - Util.size targetStr) /\
        Forall (fun c => In c str) pad /\
        r = (if match code with Some b => b | None => false end
             then pad ++ targetStr else targetStr ++ pad)).
Proof.
  intros Hne. rewrite (ezCall_cases maxLength targetStr n str code Hne).
  destruct (Z.ltb_spec (Util.size targetStr) n) as [Hlt|Hge];
    destruct (Z.ltb_spec maxLength
                (Z.max n ((n - Util.size targetStr) * Util.size str)))
      as [Hbig|Hfit]; cbn [andb].
  - split; [split; [intros _; split; lia|reflexivity]|discriminate].
  - split; [split; [discriminate|intros [_ H]; lia]|].
    intros r [= <-]. split; [reflexivity|].
    split; [apply ez_size, Hne|apply ez_shape, Hne].
  - split; [split; [discriminate|intros [H _]; lia]|].
    intros r [= <-]. split; [reflexivity|].
    split; [apply ez_size, Hne|apply ez_shape, Hne].
  - split; [split; [discriminate|intros [H _]; lia]|].
    intros r [= <-]. split; [reflexivity|].
    split; [apply ez_size, Hne|apply ez_shape, Hne].
Qed.

(** X16.  [ez] is idempotent: padding a padded string again to the same
    length changes nothing; and with an empty pad string it returns the
    target unchanged, however short. *)
Theorem ez_idempotent (targetStr : list C) (n : Z) (str : list C)
  (code : option bool) :
  Util.ez (Util.ez targetStr n str code) n str code
  = Util.ez targetStr n str code /\
  Util.ez targetStr n [] code = targetStr.
Proof.
  assert (Hempty : forall t : list C, Util.ez t n [] code = t).
  { intros t. unfold Util.ez.
    destruct (Util.size t >=? n); [reflexivity|].
    assert (E : forall k, Util.strRepeat (@nil C) k = [])
      by (induction k; cbn; auto).
    rewrite E, firstn_nil, app_nil_r. destruct code as [[]|]; reflexivity. }
  split; [|apply Hempty].
  destruct str as [|c str'].
  - rewrite !Hempty. reflexivity.
  - pose proof (ez_size targetStr n (c :: str') code) as Hlen.
    specialize (Hlen ltac:(discriminate)).
    unfold Util.ez at 1.
    destruct (Z.geb_spec (Util.size (Util.ez targetStr n (c :: str') code)) n);
      [reflexivity|lia].
Qed.

End EzFacts.

Lemma ez_pads_witness :
  [0; 0; 5] = Util.ez [5] 3 [0] (Some true) /\
  Util.size [0; 0; 5] = Z.max (Util.size [5]) 3.
Proof.
  destruct (proj2 (ez_pads Z 536870888 [5] 3 [0] (Some true)
                     ltac:(discriminate)) [0; 0; 5] eq_refl)
    as (H1 & H2 & _).
  split; assumption.
Defined.

(** X17.  For a target date that is not in the future the parts returned
    by [getDateDiff] are the mixed-radix digits of the difference: they
    recompose to it, the day count is not negative and hours, minutes,
    seconds and milliseconds lie in [0..23], [0..59], [0..59] and
    [0..999]; and each unit query is the whole number of that unit the
    parts stand for. *)
Theorem getDateDiff_past (time now : Z) :
  time <= now ->
  exists p,
    Util.getDateDiff (Some time) now None = Util.Parts p /\
    recompose p = now - time /\
    0 <= Util.day p /\ 0 <= Util.hour p < 24 /\ 0 <= Util.minute p < 60 /\
    0 <= Util.second p < 60 /\ 0 <= Util.ms p < 1000 /\
    Util.getDateDiff (Some time) now (Some Util.UnitDay)
    = Util.Amount (Util.day p) /\
    Util.getDateDiff (Some time) now (Some Util.UnitHour)
    = Util.Amount (Util.day p * 24 + Util.hour p) /\
    Util.getDateDiff (Some time) now (Some Util.UnitMinute)
    = Util.Amount ((Util.day p * 24 + Util.hour p) * 60 + Util.minute p) /\
    Util.getDateDiff (Some time) now (Some Util.UnitSecond)
    = Util.Amount
        (((Util.day p * 24 + Util.hour p) * 60 + Util.minute p) * 60
         + Util.second p).
Proof.
  intros Hle. eexists. split; [reflexivity|].
  unfold recompose. cbn [Util.getDateDiff Util.day Util.hour Util.minute
                          Util.second Util.ms].
  set (d := now - time). assert (Hd : 0 <= d) by (subst d; lia).
  clearbody d.
  rewrite !Z.rem_mod_nonneg by
    (repeat apply Z.div_pos; lia).
  change (1000 * 60 * 60 * 24) with 86400000.
  change (1000 * 60 * 60) with 3600000.
  change (1000 * 60) with 60000.
  repeat split; try (f_equal); Z.div_mod_to_equations; lia.
Qed.

Lemma getDateDiff_past_witness :
  exists p,
    Util.getDateDiff (Some 1000) 93784005 None = Util.Parts p /\
    recompose p = 93784005 - 1000.
Proof.
  destruct (getDateDiff_past 1000 93784005 ltac:(lia)) as (p & H1 & H2 & _).
  exists p. split; assumption.
Defined.

(** X18.  For a target date in the future the parts do not add up: no
    part is positive, they recompose to the difference only when it is a
    whole number of days, and otherwise to less, at least one second less
    whenever the difference is not a whole number of seconds. *)
Theorem getDateDiff_future (time now : Z) :
  now < time ->
  exists p,
    Util.getDateDiff (Some time) now None = Util.Parts p /\
    Util.day p < 0 /\ Util.hour p <= 0 /\ Util.minute p <= 0 /\
    Util.second p <= 0 /\ Util.ms p <= 0 /\
    recompose p <= now - time /\
    (recompose p = now - time <-> (now - time) mod 86400000 = 0) /\
    ((now - time) mod 1000 <> 0 -> recompose p <= now - time - 1000).
Proof.
  intros Hlt. eexists. split; [reflexivity|].
  unfold recompose. cbn [Util.getDateDiff Util.day Util.hour Util.minute
                          Util.second Util.ms].
  set (d := now - time). assert (Hd : d < 0) by (subst d; lia).
  clearbody d.
  repeat split; intros;
    Z.div_mod_to_equations; Z.quot_rem_to_equations; lia.
Qed.

Lemma getDateDiff_future_witness :
  exists p,
    Util.getDateDiff (Some 1001) 1000 None = Util.Parts p /\
    Util.day p < 0.
Proof.
  destruct (getDateDiff_future 1001 1000 ltac:(lia)) as (p & H1 & H2 & _).
  exists p. split; assumption.
Defined.

Section ColourFacts.

Import String.
#[local] Open Scope string_scope.

(** X19.  The RGBA branch of [hexRGBA] shifts each channel right by 16
    bits: for every colour [rgb(r, g, b)] or [rgba(r, g, b, a)], whose
    channels have at most three digits, the result is ["#000000"]. *)
Theorem convertRGBAToHex_is_black (r g b : Z) :
  0 <= r < 65536 -> 0 <= g < 65536 -> 0 <= b < 65536 ->
  Colour.convertRGBAToHex r g b = "#000000".
Proof.
  intros Hr Hg Hb.
  assert (H : forall x, 0 <= x < 65536 -> Z.shiftr x 16 = 0).
  { intros x Hx. rewrite Z.shiftr_div_pow2 by lia.
    apply Z.div_small. change (2 ^ 16) with 65536. lia. }
  unfold Colour.convertRGBAToHex, Colour.channel.
  rewrite (H r Hr), (H g Hg), (H b Hb). reflexivity.
Qed.

Lemma convertRGBAToHex_is_black_witness :
  Colour.convertRGBAToHex 255 0 0 = "#000000".
Proof.
  apply convertRGBAToHex_is_black; lia.
Defined.

End ColourFacts.
